(** * CRUD-Generator: authentication workflow

    A shallow embedding of the authentication part of the NestJS backend:

    - [src/shared/services/token.service.ts]   (TokenService)
    - [src/routes/auth/auth.service.ts]        (AuthService)
    - [src/shared/guards/api-key.guard.ts]     (APIKeyGuard)
    - [src/shared/guards/authentication.guard.ts] (AuthenticationGuard)
    - [src/shared/decorators/auth.decorator.ts] (Auth)

    Promises are modelled by their settlement: a value of type
    [Outcome A] is either a rejection / thrown exception ([inl e]) or a
    fulfilment ([inr a]).  Services injected through the constructor are
    records of operations on an abstract world [W]; the world is threaded
    explicitly, and a rejected operation keeps the world it has reached
    (nothing is rolled back by a JavaScript [catch]). *)

From Stdlib Require Import ZArith String Ascii List Bool Lia DecimalString.
From stdpp Require Import base option list gmap strings.

Local Open Scope Z_scope.
Local Open Scope string_scope.
Local Open Scope list_scope.

(** ** Exceptions *)

(** The values that are thrown in this code base.  [JsError] stands for
    every thrown value that is neither a Prisma known-request error nor one
    of the HTTP exceptions of the framework ([Error], [TypeError],
    [JsonWebTokenError], [TokenExpiredError], ...).
    [UnauthorizedException None] is [new UnauthorizedException()]. *)
Inductive exn : Type :=
| PrismaClientKnownRequestError (code message : string)
| JsError (name message : string)
| ConflictException (message : string)
| UnauthorizedException (message : option string)
| UnprocessableEntityException (errors : list (string * string)).

#[global] Instance exn_eq_dec : EqDecision exn.
Proof. solve_decision. Defined.

(** Modelled from the spec: [src/shared/helper.ts] is not among the
    sources, only its test suite [helper.spec.ts] is.  The store "raises
    DuplicateKey distinguishable from other errors"; by the suite, the
    predicate holds of a [PrismaClientKnownRequestError] with code P2002
    and of nothing else. *)
Definition isUnqueConstraintPrismaError (error : exn) : bool :=
  match error with
  | PrismaClientKnownRequestError code _ => String.eqb code "P2002"
  | _ => false
  end.

(** Modelled from the spec: the second predicate of the absent
    [src/shared/helper.ts], "NotFound distinguishable from other errors";
    by its test suite, a [PrismaClientKnownRequestError] with code P2025. *)
Definition isNotFoundPrismaError (error : exn) : bool :=
  match error with
  | PrismaClientKnownRequestError code _ => String.eqb code "P2025"
  | _ => false
  end.

(** ** Settled promises and the world-passing monad *)

Definition Outcome (A : Type) : Type := (exn + A)%type.

Definition M (W A : Type) : Type := W -> Outcome A * W.

Definition ret {W A} (a : A) : M W A := fun w => (inr a, w).

Definition throw {W A} (e : exn) : M W A := fun w => (inl e, w).

Definition bind {W A B} (m : M W A) (k : A -> M W B) : M W B :=
  fun w =>
    match m w with
    | (inr a, w') => k a w'
    | (inl e, w') => (inl e, w')
    end.

(** [try { body } catch (error) { handler }] *)
Definition try_catch {W A} (body : M W A) (handler : exn -> M W A) : M W A :=
  fun w =>
    match body w with
    | (inr a, w') => (inr a, w')
    | (inl e, w') => handler e w'
    end.

Declare Scope js_scope.
Delimit Scope js_scope with js.
Notation "'await' x <- m ; k" := (bind m (fun x => k))
  (at level 10, x name, m at level 100, k at level 200) : js_scope.

(** ** Guard composition *)

(** [src/shared/constants/auth.constant.ts] is not among the sources; the
    two enumerations are the ones the guard and the decorator use. *)
Module AuthType.
Inductive t : Type := Bearer | APIKey | None.
End AuthType.

Module ConditionGuard.
Inductive t : Type := And | Or.
End ConditionGuard.

#[global] Instance AuthType_eq_dec : EqDecision AuthType.t.
Proof. solve_decision. Defined.

#[global] Instance ConditionGuard_eq_dec : EqDecision ConditionGuard.t.
Proof. solve_decision. Defined.

Record AuthOptions : Type := { condition : ConditionGuard.t }.

Record AuthTypeDecoratorPayload : Type :=
  { authTypes : list AuthType.t; options : AuthOptions }.

(** [Auth(authTypes, options?)]: the metadata the decorator attaches. *)
Definition Auth (authTypes : list AuthType.t) (options : option AuthOptions)
  : AuthTypeDecoratorPayload :=
  {| authTypes := authTypes;
     options := default {| condition := ConditionGuard.And |} options |}.

(** What the guards read of the execution context: the [x-api-key] header
    of the request, the rest of the request (left abstract: it is what the
    access-token guard looks at), and the metadata of the handler and of
    its class. *)
Record ExecutionContext (Req : Type) : Type :=
  { x_api_key : option string;
    request : Req;
    handler_metadata : option AuthTypeDecoratorPayload;
    class_metadata : option AuthTypeDecoratorPayload }.
Arguments x_api_key {Req} _.
Arguments request {Req} _.
Arguments handler_metadata {Req} _.
Arguments class_metadata {Req} _.

(** [reflector.getAllAndOverride(AUTH_TYPE_KEY, [handler, class])]: the
    first target that carries the metadata wins. *)
Definition getAllAndOverride {Req} (context : ExecutionContext Req)
  : option AuthTypeDecoratorPayload :=
  match handler_metadata context with
  | Some v => Some v
  | None => class_metadata context
  end.

(** The four ways a call [instance.canActivate(context)] can end.  A
    guard declared [canActivate(...): boolean] returns or throws before
    any promise exists; an [async canActivate] always hands back a
    promise, fulfilled or rejected. *)
Inductive GuardReturn : Type :=
| ReturnsSync (b : bool)
| ThrowsSync (e : exn)
| ResolvesAsync (b : bool)
| RejectsAsync (e : exn).

Definition CanActivate (Req : Type) : Type := ExecutionContext Req -> GuardReturn.

Section Guards.
Context {Req : Type}.

(** [envConfig.SECRET_API_KEY] *)
Variable SECRET_API_KEY : string.

(** [access-token.guard.ts] is not among the sources: the guard behind
    [AuthType.Bearer] is whatever is injected. *)
Variable accessTokenGuard : CanActivate Req.

(** [APIKeyGuard.canActivate]: synchronous, throws on a mismatch. *)
Definition apiKeyGuard : CanActivate Req :=
  fun context =>
    if decide (x_api_key context = Some SECRET_API_KEY)
    then ReturnsSync true
    else ThrowsSync (UnauthorizedException None).

Definition authTypeGuardMap (authType : AuthType.t) : CanActivate Req :=
  match authType with
  | AuthType.Bearer => accessTokenGuard
  | AuthType.APIKey => apiKeyGuard
  | AuthType.None => fun _ => ReturnsSync true
  end.

(** The result of a run of the composer: the strategies it has called,
    in the order of the calls, and how its promise settles. *)
Definition GuardRun : Type := (list AuthType.t * Outcome bool)%type.

Definition called (a : AuthType.t) (r : GuardRun) : GuardRun :=
  (a :: fst r, snd r).

(** The [for] loop of the [Or] branch followed by [throw error].
    [Promise.resolve(instance.canActivate(context)).catch(...)]: the
    call is evaluated before [Promise.resolve], so a synchronous throw
    leaves [canActivate] at once; only a rejected promise reaches the
    [catch] callback, which stores the error and yields [false]. *)
Fixpoint or_loop (guards : list (AuthType.t * CanActivate Req))
    (context : ExecutionContext Req) (error : exn) : GuardRun :=
  match guards with
  | [] => ([], inl error)
  | (a, instance) :: rest =>
      match instance context with
      | ThrowsSync e => ([a], inl e)
      | RejectsAsync err => called a (or_loop rest context err)
      | ReturnsSync b | ResolvesAsync b =>
          if b then ([a], inr true)
          else called a (or_loop rest context error)
      end
  end.

(** The [for] loop of the [else] branch followed by [return true]. *)
Fixpoint and_loop (guards : list (AuthType.t * CanActivate Req))
    (context : ExecutionContext Req) (error : exn) : GuardRun :=
  match guards with
  | [] => ([], inr true)
  | (a, instance) :: rest =>
      match instance context with
      | ThrowsSync e => ([a], inl e)
      | RejectsAsync err => ([a], inl err)
      | ReturnsSync b | ResolvesAsync b =>
          if b then called a (and_loop rest context error)
          else ([a], inl error)
      end
  end.

(** [AuthenticationGuard.canActivate] *)
Definition canActivate (context : ExecutionContext Req) : GuardRun :=
  let authTypeValue :=
    default {| authTypes := [AuthType.None];
               options := {| condition := ConditionGuard.And |} |}
            (getAllAndOverride context) in
  let guards :=
    map (fun authType => (authType, authTypeGuardMap authType))
        (authTypes authTypeValue) in
  let error := UnauthorizedException None in
  if decide (condition (options authTypeValue) = ConditionGuard.Or)
  then or_loop guards context error
  else and_loop guards context error.

(** The route declares the strategies [tys] under the combinator [c]. *)
Definition declares (context : ExecutionContext Req)
    (tys : list AuthType.t) (c : ConditionGuard.t) : Prop :=
  getAllAndOverride context =
    Some {| authTypes := tys; options := {| condition := c |} |}.

(** A strategy succeeds when its call yields [true], at once or through
    a promise. *)
Definition succeeds (instance : CanActivate Req)
    (context : ExecutionContext Req) : bool :=
  match instance context with
  | ReturnsSync b | ResolvesAsync b => b
  | ThrowsSync _ | RejectsAsync _ => false
  end.

(** The error a failing strategy raises; one that only answers [false]
    raises nothing, and the composer substitutes the exception it
    created beforehand. *)
Definition raised (instance : CanActivate Req)
    (context : ExecutionContext Req) : exn :=
  match instance context with
  | ThrowsSync e | RejectsAsync e => e
  | ReturnsSync _ | ResolvesAsync _ => UnauthorizedException None
  end.

(** A strategy fails quietly when it neither succeeds nor throws before
    handing back a promise. *)
Definition fails_quietly (instance : CanActivate Req)
    (context : ExecutionContext Req) : bool :=
  match instance context with
  | ReturnsSync b | ResolvesAsync b => negb b
  | RejectsAsync _ => true
  | ThrowsSync _ => false
  end.

(** The error variable of [canActivate] after the strategies [tys] have
    all been called without success: the last error a promise was
    rejected with, or the initial one. *)
Fixpoint last_rejection (tys : list AuthType.t)
    (context : ExecutionContext Req) (error : exn) : exn :=
  match tys with
  | [] => error
  | a :: rest =>
      match authTypeGuardMap a context with
      | RejectsAsync e => last_rejection rest context e
      | _ => last_rejection rest context error
      end
  end.

End Guards.

(** ** Data model *)

(** A row of the [User] table. *)
Record User : Type :=
  { user_id : Z;
    user_email : string;
    user_name : string;
    user_password : string;
    user_createdAt : Z;
    user_updatedAt : Z }.

(** The [data] of [prismaService.user.create]. *)
Record UserCreateInput : Type :=
  { uc_email : string; uc_password : string; uc_name : string }.

(** A row of the [RefreshToken] table; [token] is its unique key. *)
Record RefreshToken : Type :=
  { rt_token : string;
    rt_userId : Z;
    rt_expiresAt : Z;
    rt_createdAt : Z }.

(** The [data] of [prismaService.refreshToken.create]. *)
Record RefreshTokenCreateInput : Type :=
  { rc_token : string; rc_userId : Z; rc_expiresAt : Z }.

(** [TokenPayload] of [src/shared/types/jwt.type.ts] (not among the
    sources): the claims [verifyAsync] hands back; [exp] and [iat] are in
    seconds. *)
Record TokenPayload : Type := { userId : Z; exp : Z; iat : Z }.

(** The request bodies, as far as the service reads them. *)
Record RegisterBody : Type :=
  { reg_email : string; reg_password : string; reg_name : string }.

Record LoginBodyDTO : Type := { login_email : string; login_password : string }.

(** The pair [{ accessToken, refreshToken }]. *)
Record Tokens : Type := { accessToken : string; refreshToken : string }.

#[global] Instance User_eq_dec : EqDecision User.
Proof. solve_decision. Defined.
#[global] Instance RefreshToken_eq_dec : EqDecision RefreshToken.
Proof. solve_decision. Defined.
#[global] Instance TokenPayload_eq_dec : EqDecision TokenPayload.
Proof. solve_decision. Defined.
#[global] Instance Tokens_eq_dec : EqDecision Tokens.
Proof. solve_decision. Defined.
#[global] Instance UserCreateInput_eq_dec : EqDecision UserCreateInput.
Proof. solve_decision. Defined.
#[global] Instance RefreshTokenCreateInput_eq_dec : EqDecision RefreshTokenCreateInput.
Proof. solve_decision. Defined.

(** ** Injected services *)

Section Services.
Context {W : Type}.

(** [HashingService] ([hashing.service.ts] is not among the sources;
    the service is injected). *)
Record HashingService : Type :=
  { hash : string -> M W string;
    compare : string -> string -> M W bool }.

(** The part of the Prisma client the service calls. *)
Record PrismaService : Type :=
  { user_create : UserCreateInput -> M W User;
    user_findUnique : string -> M W (option User);
    refreshToken_create : RefreshTokenCreateInput -> M W RefreshToken;
    refreshToken_findUniqueOrThrow : string -> M W RefreshToken;
    refreshToken_delete : string -> M W RefreshToken }.

(** [JwtService] of [@nestjs/jwt]: [sign(payload, { secret, expiresIn,
    algorithm: 'HS256' })] and [verifyAsync(token, { secret,
    algorithms: ['HS256'] })]. *)
Record JwtService : Type :=
  { sign : Z -> string -> string -> M W string;
    verifyAsync : string -> string -> M W TokenPayload }.

(** [TokenService], as [AuthService] sees it. *)
Record TokenService : Type :=
  { signAccessToken : Z -> M W string;
    signRefreshToken : Z -> M W string;
    verifyAccessToken : string -> M W TokenPayload;
    verifyRefreshToken : string -> M W TokenPayload }.

End Services.
Arguments HashingService W : clear implicits.
Arguments PrismaService W : clear implicits.
Arguments JwtService W : clear implicits.
Arguments TokenService W : clear implicits.

(** [envConfig] *)
Record EnvConfig : Type :=
  { ACCESS_TOKEN_SECRET : string;
    ACCESS_TOKEN_EXPIRES_IN : string;
    REFRESH_TOKEN_SECRET : string;
    REFRESH_TOKEN_EXPIRES_IN : string }.

(** [token.service.ts]: each method is one call of the JWT library with
    the secret and the lifetime of its token class. *)
Definition mkTokenService {W} (jwtService : JwtService W) (envConfig : EnvConfig)
  : TokenService W :=
  {| signAccessToken := fun payload =>
       sign jwtService payload (ACCESS_TOKEN_SECRET envConfig)
            (ACCESS_TOKEN_EXPIRES_IN envConfig);
     signRefreshToken := fun payload =>
       sign jwtService payload (REFRESH_TOKEN_SECRET envConfig)
            (REFRESH_TOKEN_EXPIRES_IN envConfig);
     verifyAccessToken := fun token =>
       verifyAsync jwtService token (ACCESS_TOKEN_SECRET envConfig);
     verifyRefreshToken := fun token =>
       verifyAsync jwtService token (REFRESH_TOKEN_SECRET envConfig) |}.

(** ** [AuthService] *)

Module AuthService.
Section AuthService.
Context {W : Type}.
Variable hashingService : HashingService W.
Variable prismaService : PrismaService W.
Variable tokenService : TokenService W.

Local Open Scope js_scope.

Definition register (body : RegisterBody) : M W User :=
  try_catch
    (await hashedPassword <- hash hashingService (reg_password body);
     await user <- user_create prismaService
                     {| uc_email := reg_email body;
                        uc_password := hashedPassword;
                        uc_name := reg_name body |};
     ret user)
    (fun error =>
       if isUnqueConstraintPrismaError error
       then throw (ConflictException "Email already exists")
       else throw error).

(** [Promise.all([signAccessToken(payload), signRefreshToken(payload)])]:
    both calls are synchronous and are made, in this order, while the
    array is built. *)
Definition generateTokens (payload_userId : Z) : M W Tokens :=
  await accessToken <- signAccessToken tokenService payload_userId;
  await refreshToken <- signRefreshToken tokenService payload_userId;
  await decodeRefreshToken <- verifyRefreshToken tokenService refreshToken;
  await _ <- refreshToken_create prismaService
               {| rc_token := refreshToken;
                  rc_userId := payload_userId;
                  rc_expiresAt := exp decodeRefreshToken * 1000 |};
  ret {| accessToken := accessToken; refreshToken := refreshToken |}.

Definition login (body : LoginBodyDTO) : M W Tokens :=
  await user <- user_findUnique prismaService (login_email body);
  match user with
  | None => throw (UnauthorizedException (Some "Account does not exist"))
  | Some user =>
      await isPasswordMatching <-
        compare hashingService (login_password body) (user_password user);
      if negb isPasswordMatching
      then throw (UnprocessableEntityException
                    [("password", "Incorrect password")])
      else
        await tokens <- generateTokens (user_id user);
        ret tokens
  end.

Definition refreshToken (refreshToken : string) : M W Tokens :=
  try_catch
    (await payload <- verifyRefreshToken tokenService refreshToken;
     await _ <- refreshToken_findUniqueOrThrow prismaService refreshToken;
     await _ <- refreshToken_delete prismaService refreshToken;
     generateTokens (userId payload))
    (fun error =>
       if isNotFoundPrismaError error
       then throw (UnauthorizedException (Some "Refresh token has been revoked"))
       else throw (UnauthorizedException None)).

End AuthService.
End AuthService.

(** ** Refresh calls in flight

    Node runs one request at a time between two [await]s.  A call of
    [refreshToken] that is in flight is therefore at one of the service
    calls of its body; a step performs that call and runs the code up to
    the next one.  The [catch] clause turns every rejection into the
    exception the call settles with. *)

Module InFlight.
Section InFlight.
Context {W : Type}.
Variable prismaService : PrismaService W.
Variable tokenService : TokenService W.

Inductive Pc : Type :=
| AtVerify
| AtFind (userId : Z)
| AtDelete (userId : Z)
| AtSignAccess (userId : Z)
| AtSignRefresh (userId : Z) (accessToken : string)
| AtVerifyIssued (userId : Z) (accessToken refreshToken : string)
| AtCreate (userId : Z) (accessToken refreshToken : string)
           (decodeRefreshToken : TokenPayload)
| Settled (result : Outcome Tokens).

(** The [catch (error)] clause of [refreshToken]. *)
Definition rejection (error : exn) : exn :=
  if isNotFoundPrismaError error
  then UnauthorizedException (Some "Refresh token has been revoked")
  else UnauthorizedException None.

Definition resume {A} (r : Outcome A * W) (k : A -> Pc) : Pc * W :=
  match r with
  | (inr a, w') => (k a, w')
  | (inl e, w') => (Settled (inl (rejection e)), w')
  end.

Definition step (refreshToken : string) (pc : Pc) (w : W) : Pc * W :=
  match pc with
  | AtVerify =>
      resume (verifyRefreshToken tokenService refreshToken w)
             (fun payload => AtFind (userId payload))
  | AtFind u =>
      resume (refreshToken_findUniqueOrThrow prismaService refreshToken w)
             (fun _ => AtDelete u)
  | AtDelete u =>
      resume (refreshToken_delete prismaService refreshToken w)
             (fun _ => AtSignAccess u)
  | AtSignAccess u =>
      resume (signAccessToken tokenService u w) (fun a => AtSignRefresh u a)
  | AtSignRefresh u a =>
      resume (signRefreshToken tokenService u w)
             (fun r => AtVerifyIssued u a r)
  | AtVerifyIssued u a r =>
      resume (verifyRefreshToken tokenService r w) (fun d => AtCreate u a r d)
  | AtCreate u a r d =>
      resume (refreshToken_create prismaService
                {| rc_token := r; rc_userId := u;
                   rc_expiresAt := exp d * 1000 |} w)
             (fun _ => Settled (inr {| accessToken := a; refreshToken := r |}))
  | Settled result => (Settled result, w)
  end.

(** One call running alone for [n] steps. *)
Fixpoint steps (n : nat) (refreshToken : string) (pc : Pc) (w : W) : Pc * W :=
  match n with
  | O => (pc, w)
  | S n' =>
      let (pc', w') := step refreshToken pc w in
      steps n' refreshToken pc' w'
  end.

(** The calls in flight form a pool: each comes with the token string it
    was given, and all share the world.  The scheduler resumes call
    number [i]. *)
Definition resume_call (i : nat) (s : list (string * Pc) * W)
  : list (string * Pc) * W :=
  match fst s !! i with
  | Some (refreshToken, pc) =>
      let (pc', w') := step refreshToken pc (snd s) in
      (<[i := (refreshToken, pc')]> (fst s), w')
  | None => s
  end.

Definition run (schedule : list nat) (s : list (string * Pc) * W)
  : list (string * Pc) * W :=
  fold_left (fun s i => resume_call i s) schedule s.

Definition is_settled (c : string * Pc) : bool :=
  match snd c with Settled _ => true | _ => false end.

Definition fulfilled (c : string * Pc) : bool :=
  match snd c with Settled (inr _) => true | _ => false end.

End InFlight.
End InFlight.

(** ** A store in memory

    The reference behaviour of the two tables behind the Prisma client:
    [email] is unique in [User], [token] is unique in [RefreshToken];
    [create] on a taken key is rejected with P2002; [findUniqueOrThrow]
    and [delete] on a missing key are rejected with P2025.  Every call of
    the client is recorded in [calls]. *)

Inductive StoreCall : Type :=
| UserCreate (data : UserCreateInput)
| UserFindUnique (email : string)
| RefreshTokenCreate (data : RefreshTokenCreateInput)
| RefreshTokenFindUniqueOrThrow (token : string)
| RefreshTokenDelete (token : string).

Record World : Type :=
  { users : list User;
    refreshTokens : gmap string RefreshToken;
    calls : list StoreCall;
    now : Z;        (* the clock, [Date.now()] *)
    salts : Z }.    (* number of salts drawn by the hasher so far *)

Definition record_call (c : StoreCall) (w : World) : World :=
  {| users := users w; refreshTokens := refreshTokens w;
     calls := calls w ++ [c]; now := now w; salts := salts w |}.

Definition set_users (us : list User) (w : World) : World :=
  {| users := us; refreshTokens := refreshTokens w;
     calls := calls w; now := now w; salts := salts w |}.

Definition set_refreshTokens (m : gmap string RefreshToken) (w : World) : World :=
  {| users := users w; refreshTokens := m;
     calls := calls w; now := now w; salts := salts w |}.

Definition draw_salt (w : World) : World :=
  {| users := users w; refreshTokens := refreshTokens w;
     calls := calls w; now := now w; salts := salts w + 1 |}.

(** Time passes between two requests. *)
Definition advance (dt : Z) (w : World) : World :=
  {| users := users w; refreshTokens := refreshTokens w;
     calls := calls w; now := now w + dt; salts := salts w |}.

Definition P2002 : exn :=
  PrismaClientKnownRequestError "P2002" "Unique constraint failed".

Definition P2025 : exn :=
  PrismaClientKnownRequestError "P2025" "Record not found".

Definition find_user (email : string) (us : list User) : option User :=
  List.find (fun u => String.eqb (user_email u) email) us.

Definition memPrismaService : PrismaService World :=
  {| user_create := fun data w =>
       let w := record_call (UserCreate data) w in
       match find_user (uc_email data) (users w) with
       | Some _ => (inl P2002, w)
       | None =>
           let user :=
             {| user_id := Z.of_nat (length (users w)) + 1;
                user_email := uc_email data;
                user_name := uc_name data;
                user_password := uc_password data;
                user_createdAt := now w;
                user_updatedAt := now w |} in
           (inr user, set_users (users w ++ [user]) w)
       end;
     user_findUnique := fun email w =>
       let w := record_call (UserFindUnique email) w in
       (inr (find_user email (users w)), w);
     refreshToken_create := fun data w =>
       let w := record_call (RefreshTokenCreate data) w in
       match refreshTokens w !! rc_token data with
       | Some _ => (inl P2002, w)
       | None =>
           let row :=
             {| rt_token := rc_token data;
                rt_userId := rc_userId data;
                rt_expiresAt := rc_expiresAt data;
                rt_createdAt := now w |} in
           (inr row, set_refreshTokens (<[rc_token data := row]> (refreshTokens w)) w)
       end;
     refreshToken_findUniqueOrThrow := fun token w =>
       let w := record_call (RefreshTokenFindUniqueOrThrow token) w in
       match refreshTokens w !! token with
       | Some row => (inr row, w)
       | None => (inl P2025, w)
       end;
     refreshToken_delete := fun token w =>
       let w := record_call (RefreshTokenDelete token) w in
       match refreshTokens w !! token with
       | Some row => (inr row, set_refreshTokens (delete token (refreshTokens w)) w)
       | None => (inl P2025, w)
       end |}.

(** What a library other than the ORM throws: a plain JavaScript error,
    given by its name and its message. *)
Definition LibResult (A : Type) : Type := (string * string + A)%type.

Definition settle {A} (r : LibResult A) : Outcome A :=
  match r with
  | inl (name, message) => inl (JsError name message)
  | inr a => inr a
  end.

(** The libraries behind the two other services, as functions of what
    they read: the JWT library reads the clock, the hasher draws a salt. *)
Record Libraries : Type :=
  { jwt_sign : Z -> string -> string -> Z -> LibResult string;
    jwt_verify : string -> string -> Z -> LibResult TokenPayload;
    bcrypt_hash : string -> Z -> string;
    bcrypt_compare : string -> string -> bool }.

Definition memJwtService (lib : Libraries) : JwtService World :=
  {| sign := fun payload secret expiresIn w =>
       (settle (jwt_sign lib payload secret expiresIn (now w)), w);
     verifyAsync := fun token secret w =>
       (settle (jwt_verify lib token secret (now w)), w) |}.

Definition memHashingService (lib : Libraries) : HashingService World :=
  {| hash := fun value w => (inr (bcrypt_hash lib value (salts w)), draw_salt w);
     compare := fun value hashed w => (inr (bcrypt_compare lib value hashed), w) |}.

(** The application wired as the Nest container does it. *)
Module App.
Section App.
Variable lib : Libraries.
Variable envConfig : EnvConfig.

Definition tokenService : TokenService World :=
  mkTokenService (memJwtService lib) envConfig.

Definition register : RegisterBody -> M World User :=
  AuthService.register (memHashingService lib) memPrismaService.

Definition generateTokens : Z -> M World Tokens :=
  AuthService.generateTokens memPrismaService tokenService.

Definition login : LoginBodyDTO -> M World Tokens :=
  AuthService.login (memHashingService lib) memPrismaService tokenService.

Definition refreshToken : string -> M World Tokens :=
  AuthService.refreshToken memPrismaService tokenService.

Definition run : list nat -> list (string * InFlight.Pc) * World ->
                 list (string * InFlight.Pc) * World :=
  InFlight.run memPrismaService tokenService.

End App.
End App.

(** The world after [findUniqueOrThrow] and [delete] have both found the
    row of [token]. *)
Definition redeem (token : string) (w : World) : World :=
  set_refreshTokens (delete token (refreshTokens w))
    (record_call (RefreshTokenDelete token)
       (record_call (RefreshTokenFindUniqueOrThrow token) w)).

(** The row [generateTokens] asks the store to create, and the world after
    the store has created it. *)
Definition issue_data (token : string) (u : Z) (d : TokenPayload)
  : RefreshTokenCreateInput :=
  {| rc_token := token; rc_userId := u; rc_expiresAt := exp d * 1000 |}.

Definition issued_row (token : string) (u : Z) (d : TokenPayload) (w : World)
  : RefreshToken :=
  {| rt_token := token; rt_userId := u;
     rt_expiresAt := exp d * 1000; rt_createdAt := now w |}.

Definition issue (token : string) (u : Z) (d : TokenPayload) (w : World) : World :=
  set_refreshTokens (<[token := issued_row token u d w]> (refreshTokens w))
    (record_call (RefreshTokenCreate (issue_data token u d)) w).

(** ** Calls racing for one token

    The shapes a pool of calls for the same [token] can take while the
    replacement pair is [(a, r)]: before any [delete] has gone through,
    and after the [delete] of call number [i] has. *)

Module Race.
Section Race.
Variable token : string.
Variable u : Z.
Variables a r : string.
Variable d : TokenPayload.

Definition revoked : Outcome Tokens :=
  inl (UnauthorizedException (Some "Refresh token has been revoked")).

Definition renewed : Outcome Tokens :=
  inr {| accessToken := a; refreshToken := r |}.

(** A call that has not yet asked the store to delete the row. *)
Definition waiting (pc : InFlight.Pc) : Prop :=
  match pc with
  | InFlight.AtVerify => True
  | InFlight.AtFind u' | InFlight.AtDelete u' => u' = u
  | _ => False
  end.

Definition losing (pc : InFlight.Pc) : Prop :=
  waiting pc \/ pc = InFlight.Settled revoked.

(** The call whose [delete] went through. *)
Definition leading (pc : InFlight.Pc) : Prop :=
  match pc with
  | InFlight.AtSignAccess u' => u' = u
  | InFlight.AtSignRefresh u' a' => u' = u /\ a' = a
  | InFlight.AtVerifyIssued u' a' r' => u' = u /\ a' = a /\ r' = r
  | InFlight.AtCreate u' a' r' d' => u' = u /\ a' = a /\ r' = r /\ d' = d
  | InFlight.Settled result => result = renewed
  | _ => False
  end.

Definition undecided (s : list (string * InFlight.Pc) * World) : Prop :=
  is_Some (refreshTokens (snd s) !! token)
  /\ refreshTokens (snd s) !! r = None
  /\ Forall (fun c => fst c = token /\ waiting (snd c)) (fst s).

Definition decided (i : nat) (s : list (string * InFlight.Pc) * World) : Prop :=
  refreshTokens (snd s) !! token = None
  /\ (exists pc, fst s !! i = Some (token, pc) /\ leading pc
                 /\ (pc = InFlight.Settled renewed
                     \/ refreshTokens (snd s) !! r = None))
  /\ (forall j c, j <> i -> fst s !! j = Some c ->
                  fst c = token /\ losing (snd c)).

Definition invariant (clock : Z) (s : list (string * InFlight.Pc) * World) : Prop :=
  now (snd s) = clock /\ (undecided s \/ exists i, decided i s).

End Race.
End Race.

(** The number of steps a call in flight has left at most. *)
Definition remaining (pc : InFlight.Pc) : nat :=
  match pc with
  | InFlight.AtVerify => 7
  | InFlight.AtFind _ => 6
  | InFlight.AtDelete _ => 5
  | InFlight.AtSignAccess _ => 4
  | InFlight.AtSignRefresh _ _ => 3
  | InFlight.AtVerifyIssued _ _ _ => 2
  | InFlight.AtCreate _ _ _ _ => 1
  | InFlight.Settled _ => 0
  end.

(** The schedule on which [N] calls run one after another: each call is
    resumed seven times, which is as many service calls as [refreshToken]
    makes, before the next one is resumed at all. *)
Definition one_after_another (N : nat) : list nat :=
  flat_map (replicate 7) (seq 0 N).

(** ** A small instance of the libraries

    Used to run the service on concrete requests.  A token is the text
    [secret.userId.iat.exp]; it verifies under the secret it was signed
    with until the clock (in milliseconds) reaches [exp] seconds.  The
    lifetime is written in seconds.  A hash is the salt followed by the
    plain text. *)

Module Sample.

Definition dec (z : Z) : string := NilZero.string_of_int (Z.to_int z).

Definition undec (s : string) : option Z :=
  option_map Z.of_int (NilZero.int_of_string s).

Fixpoint split_on (c : ascii) (s : string) : list string :=
  match s with
  | EmptyString => [EmptyString]
  | String a rest =>
      if Ascii.eqb a c then EmptyString :: split_on c rest
      else match split_on c rest with
           | hd :: tl => String a hd :: tl
           | [] => [String a EmptyString]
           end
  end.

Definition sign (payload : Z) (secret expiresIn : string) (clock : Z)
  : LibResult string :=
  match undec expiresIn with
  | Some lifetime =>
      let iat := clock / 1000 in
      inr (secret +:+ "." +:+ dec payload +:+ "." +:+ dec iat
                  +:+ "." +:+ dec (iat + lifetime))
  | None => inl ("Error", "invalid expiresIn option")
  end.

Definition verify (token secret : string) (clock : Z) : LibResult TokenPayload :=
  match split_on "."%char token with
  | [s; u; i; e] =>
      match undec u, undec i, undec e with
      | Some u, Some i, Some e =>
          if negb (String.eqb s secret)
          then inl ("JsonWebTokenError", "invalid signature")
          else if (e <=? clock / 1000)%Z
          then inl ("TokenExpiredError", "jwt expired")
          else inr {| userId := u; exp := e; iat := i |}
      | _, _, _ => inl ("JsonWebTokenError", "jwt malformed")
      end
  | _ => inl ("JsonWebTokenError", "jwt malformed")
  end.

Definition lib : Libraries :=
  {| jwt_sign := sign;
     jwt_verify := verify;
     bcrypt_hash := fun value salt => dec salt +:+ "$" +:+ value;
     bcrypt_compare := fun value hashed =>
       match split_on "$"%char hashed with
       | _ :: rest => String.eqb (String.concat "$" rest) value
       | [] => false
       end |}.

Definition envConfig : EnvConfig :=
  {| ACCESS_TOKEN_SECRET := "access-secret";
     ACCESS_TOKEN_EXPIRES_IN := "900";
     REFRESH_TOKEN_SECRET := "refresh-secret";
     REFRESH_TOKEN_EXPIRES_IN := "604800" |}.

(** A store that cannot be reached. *)
Definition unreachable : exn :=
  JsError "PrismaClientInitializationError" "Can't reach database server".

Definition offline : PrismaService World :=
  {| user_create := fun _ => throw unreachable;
     user_findUnique := fun _ => throw unreachable;
     refreshToken_create := fun _ => throw unreachable;
     refreshToken_findUniqueOrThrow := fun _ => throw unreachable;
     refreshToken_delete := fun _ => throw unreachable |}.

(** An empty database at one o'clock. *)
Definition empty : World :=
  {| users := []; refreshTokens := ∅; calls := []; now := 3600000; salts := 0 |}.

Definition alice : RegisterBody :=
  {| reg_email := "alice@example.com"; reg_password := "secret1";
     reg_name := "Alice" |}.

Definition alice_login : LoginBodyDTO :=
  {| login_email := "alice@example.com"; login_password := "secret1" |}.

(** Alice has registered. *)
Definition registered : World := snd (App.register lib alice empty).

(** One second later she has logged in. *)
Definition logged_in : Outcome Tokens * World :=
  App.login lib envConfig alice_login (advance 1000 registered).

(** The refresh token that login issued. *)
Definition issued : string :=
  match fst logged_in with
  | inr tokens => refreshToken tokens
  | inl _ => ""
  end.

(** One more second later. *)
Definition later : World := advance 1000 (snd logged_in).

(** She has logged in a second time, from another device. *)
Definition logged_in_twice : World :=
  snd (App.login lib envConfig alice_login later).

(** The two devices refresh at the same time, resumed in turn. *)
Definition in_turn : list nat := [0; 1; 0; 1; 0; 1; 0; 1; 0; 1; 0; 1; 0; 1]%nat.

End Sample.

(** ** The routes of [PostsController]

    [posts.controller.ts]: the metadata that [@Auth] attaches to each
    handler; [findOne] carries none, and neither does the class. *)

Module PostsController.

Inductive Handler : Type := create | findAll | findOne | update | remove.

Definition metadata (handler : Handler) : option AuthTypeDecoratorPayload :=
  match handler with
  | create => Some (Auth [AuthType.Bearer] None)
  | findAll =>
      Some (Auth [AuthType.Bearer; AuthType.APIKey]
                 (Some {| condition := ConditionGuard.And |}))
  | findOne => None
  | update => Some (Auth [AuthType.Bearer] None)
  | remove => Some (Auth [AuthType.Bearer] None)
  end.

(** The execution context of a request that is routed to [handler]. *)
Definition context {Req : Type} (handler : Handler) (key : option string)
    (req : Req) : ExecutionContext Req :=
  {| x_api_key := key; request := req;
     handler_metadata := metadata handler; class_metadata := None |}.

End PostsController.

(** ** Requests served one after the other

    The three routes of [AuthController], each handing its body to the
    method of [AuthService] of the same name, and the passing of time
    between two requests.  What a request leaves behind is the world its
    call reached, whether it was fulfilled or rejected. *)





(** ** Posts

    [posts.service.ts] (the version that filters by author).  Its methods
    are rejected either with the [NotFoundException] they create or with
    the error they caught, rethrown as it is. *)

Inductive PostsError : Type :=
| NotFoundException (message : string)
| Rethrown (error : exn).

(** A row of the [Post] table, as far as the service reads and writes it. *)
Record Post : Type :=
  { post_id : Z;
    post_title : string;
    post_content : string;
    post_authorId : Z }.

(** [author: { omit: { password: true } }]: a user without the password. *)
Record Author : Type :=
  { author_id : Z;
    author_email : string;
    author_name : string;
    author_createdAt : Z;
    author_updatedAt : Z }.

(** A post with [include: { author }]. *)
Record PostWithAuthor : Type := { pa_post : Post; pa_author : Author }.

(** [CreatePostBodyDTO], as far as the service reads it. *)
Record PostBody : Type := { body_title : string; body_content : string }.

(** The [data] of [prismaService.post.create]. *)
Record PostCreateInput : Type :=
  { pc_title : string; pc_content : string; pc_authorId : Z }.

#[global] Instance Post_eq_dec : EqDecision Post.
Proof. solve_decision. Defined.
#[global] Instance Author_eq_dec : EqDecision Author.
Proof. solve_decision. Defined.
#[global] Instance PostWithAuthor_eq_dec : EqDecision PostWithAuthor.
Proof. solve_decision. Defined.

(** The part of the Prisma client [PostsService] calls: [create] and
    [findMany({ where: { authorId } })], [findUniqueOrThrow({ where:
    { id } })], and [update] and [delete] with [where: { id, authorId }]. *)
Record PostPrisma (W : Type) : Type :=
  { post_create : PostCreateInput -> M W PostWithAuthor;
    post_findMany : Z -> M W (list PostWithAuthor);
    post_findUniqueOrThrow : Z -> M W PostWithAuthor;
    post_update : Z -> Z -> PostBody -> M W PostWithAuthor;
    post_delete : Z -> Z -> M W Post }.
Arguments post_create {W} _.
Arguments post_findMany {W} _.
Arguments post_findUniqueOrThrow {W} _.
Arguments post_update {W} _.
Arguments post_delete {W} _.

Module PostsService.
Section PostsService.
Context {W : Type}.
Variable prismaService : PostPrisma W.

(** A method without [try]: the promise of the client is handed back. *)
Definition handed_back {A} (m : M W A) (w : W) : (PostsError + A) * W :=
  match m w with
  | (inr a, w') => (inr a, w')
  | (inl e, w') => (inl (Rethrown e), w')
  end.

(** [try { ... } catch (error) { if (isNotFoundPrismaError(error)) throw
    new NotFoundException('Post not found'); throw error }] *)
Definition not_found_or_rethrow {A} (m : M W A) (w : W) : (PostsError + A) * W :=
  match m w with
  | (inr a, w') => (inr a, w')
  | (inl error, w') =>
      (inl (if isNotFoundPrismaError error
            then NotFoundException "Post not found"
            else Rethrown error), w')
  end.

Definition create (userId : Z) (body : PostBody) : W -> (PostsError + PostWithAuthor) * W :=
  handed_back
    (post_create prismaService
       {| pc_title := body_title body; pc_content := body_content body;
          pc_authorId := userId |}).

Definition findAll (userId : Z) : W -> (PostsError + list PostWithAuthor) * W :=
  handed_back (post_findMany prismaService userId).

Definition findOne (postId : Z) : W -> (PostsError + PostWithAuthor) * W :=
  not_found_or_rethrow (post_findUniqueOrThrow prismaService postId).

Definition update (postId userId : Z) (body : PostBody)
  : W -> (PostsError + PostWithAuthor) * W :=
  not_found_or_rethrow (post_update prismaService postId userId body).

Definition remove (postId userId : Z) : W -> (PostsError + bool) * W :=
  not_found_or_rethrow
    (bind (post_delete prismaService postId userId) (fun _ => ret true)).

End PostsService.
End PostsService.

(** The two tables behind these calls, in memory.  A post needs its
    author ([create] for an unknown user is rejected with P2003);
    [update] and [delete] find the row that has both the id and the
    author given, and are rejected with P2025 when there is none; ids are
    handed out by a counter. *)
Record Blog : Type :=
  { blog_users : list User;
    blog_posts : gmap Z Post;
    blog_seq : Z }.

Definition P2003 : exn :=
  PrismaClientKnownRequestError "P2003" "Foreign key constraint failed".

Definition without_password (u : User) : Author :=
  {| author_id := user_id u;
     author_email := user_email u;
     author_name := user_name u;
     author_createdAt := user_createdAt u;
     author_updatedAt := user_updatedAt u |}.

Definition find_author (authorId : Z) (us : list User) : option Author :=
  option_map without_password
    (List.find (fun u => Z.eqb (user_id u) authorId) us).

Definition with_author (b : Blog) (post : Post) : option PostWithAuthor :=
  option_map (fun author => {| pa_post := post; pa_author := author |})
    (find_author (post_authorId post) (blog_users b)).

Definition set_posts (posts : gmap Z Post) (b : Blog) : Blog :=
  {| blog_users := blog_users b; blog_posts := posts; blog_seq := blog_seq b |}.

(** The row under [id] when it belongs to [authorId]. *)
Definition owned (id authorId : Z) (b : Blog) : option Post :=
  match blog_posts b !! id with
  | Some post =>
      if Z.eqb (post_authorId post) authorId then Some post else None
  | None => None
  end.

Definition memPostPrisma : PostPrisma Blog :=
  {| post_create := fun data b =>
       match find_author (pc_authorId data) (blog_users b) with
       | None => (inl P2003, b)
       | Some author =>
           let post :=
             {| post_id := blog_seq b + 1;
                post_title := pc_title data;
                post_content := pc_content data;
                post_authorId := pc_authorId data |} in
           (inr {| pa_post := post; pa_author := author |},
            {| blog_users := blog_users b;
               blog_posts := <[post_id post := post]> (blog_posts b);
               blog_seq := post_id post |})
       end;
     post_findMany := fun authorId b =>
       (inr (omap (fun entry =>
                     if Z.eqb (post_authorId (snd entry)) authorId
                     then with_author b (snd entry) else None)
                  (map_to_list (blog_posts b))), b);
     post_findUniqueOrThrow := fun id b =>
       match blog_posts b !! id with
       | Some post =>
           match with_author b post with
           | Some found => (inr found, b)
           | None => (inl P2025, b)
           end
       | None => (inl P2025, b)
       end;
     post_update := fun id authorId body b =>
       match owned id authorId b with
       | Some post =>
           let post' :=
             {| post_id := post_id post;
                post_title := body_title body;
                post_content := body_content body;
                post_authorId := post_authorId post |} in
           match with_author b post' with
           | Some updated => (inr updated, set_posts (<[id := post']> (blog_posts b)) b)
           | None => (inl P2025, b)
           end
       | None => (inl P2025, b)
       end;
     post_delete := fun id authorId b =>
       match owned id authorId b with
       | Some post => (inr post, set_posts (delete id (blog_posts b)) b)
       | None => (inl P2025, b)
       end |}.

(** The blog is in order: every post is stored under its own id, no id
    is beyond the counter, and the author of every post is a user. *)
Definition blog_in_order (b : Blog) : Prop :=
  map_Forall
    (fun id post =>
       post_id post = id /\ id <= blog_seq b
       /\ is_Some (find_author (post_authorId post) (blog_users b)))
    (blog_posts b).

(** The service on the blog in memory. *)
Module Posts.
Definition create := PostsService.create memPostPrisma.
Definition findAll := PostsService.findAll memPostPrisma.
Definition findOne := PostsService.findOne memPostPrisma.
Definition update := PostsService.update memPostPrisma.
Definition remove := PostsService.remove memPostPrisma.
End Posts.

(** ** More concrete requests *)

Module Demo.

(** An access-token guard that refuses the bearer token, and one that
    accepts it. *)
Definition refusing : CanActivate unit :=
  fun _ => RejectsAsync (UnauthorizedException (Some "jwt expired")).

Definition accepting : CanActivate unit := fun _ => ResolvesAsync true.

(** A request to a handler decorated with [Auth(tys, { condition: c })]. *)
Definition route (tys : list AuthType.t) (c : ConditionGuard.t)
    (key : option string) : ExecutionContext unit :=
  {| x_api_key := key; request := tt;
     handler_metadata := Some (Auth tys (Some {| condition := c |}));
     class_metadata := None |}.

Definition alice : User :=
  {| user_id := 1; user_email := "alice@example.com"; user_name := "Alice";
     user_password := "0$secret1"; user_createdAt := 3600000;
     user_updatedAt := 3600000 |}.

Definition bob : User :=
  {| user_id := 2; user_email := "bob@example.com"; user_name := "Bob";
     user_password := "1$secret2"; user_createdAt := 3600000;
     user_updatedAt := 3600000 |}.

Definition hello : Post :=
  {| post_id := 1; post_title := "Hello"; post_content := "First post";
     post_authorId := 1 |}.

Definition reply : Post :=
  {| post_id := 2; post_title := "Re: Hello"; post_content := "Welcome";
     post_authorId := 2 |}.

(** Alice and Bob have written one post each. *)
Definition blog : Blog :=
  {| blog_users := [alice; bob];
     blog_posts := <[2 := reply]> (<[1 := hello]> ∅);
     blog_seq := 2 |}.

Definition edited : PostBody :=
  {| body_title := "Hello again"; body_content := "Edited" |}.


(** The world in which [login] calls [generateTokens] for Alice, and the
    pair it is given. *)
Definition at_login : World :=
  record_call (UserFindUnique "alice@example.com")
    (advance 1000 Sample.registered).

Definition first_pair : Tokens :=
  {| accessToken := "access-secret.1.3601.4501";
     refreshToken := "refresh-secret.1.3601.608401" |}.

Definition second_pair : Tokens :=
  {| accessToken := "access-secret.1.3602.4502";
     refreshToken := "refresh-secret.1.3602.608402" |}.

End Demo.

(** The calls [PostsController] makes on behalf of the user of the
    request: the handlers hand the id of the active user to the service;
    [findOne] hands none. *)
Inductive PostCall : Type :=
| CreatePost (body : PostBody)
| FindAllPosts
| FindOnePost (postId : Z)
| UpdatePost (postId : Z) (body : PostBody)
| RemovePost (postId : Z).

Definition perform (userId : Z) (call : PostCall) (b : Blog) : Blog :=
  match call with
  | CreatePost body => snd (Posts.create userId body b)
  | FindAllPosts => snd (Posts.findAll userId b)
  | FindOnePost postId => snd (Posts.findOne postId b)
  | UpdatePost postId body => snd (Posts.update postId userId body b)
  | RemovePost postId => snd (Posts.remove postId userId b)
  end.

Definition perform_all (userId : Z) (calls : list PostCall) (b : Blog) : Blog :=
  fold_left (fun b call => perform userId call b) calls b.

(** * Properties *)

(** ** The guard composer *)

Section GuardProperties.
Context {Req : Type}.
Variable SECRET_API_KEY : string.
Variable accessTokenGuard : CanActivate Req.

Abbreviation guardOf := (authTypeGuardMap SECRET_API_KEY accessTokenGuard).
Abbreviation strategies :=
  (map (fun authType : AuthType.t => (authType, guardOf authType))).

Lemma and_loop_all_succeed tys context error :
  Forall (fun a => succeeds (guardOf a) context = true) tys ->
  and_loop (strategies tys) context error = (tys, inr true).
Proof.
  induction 1 as [|a tys Ha _ IH]; [reflexivity|].
  simpl. unfold succeeds in Ha.
  destruct (guardOf a context) as [b|e|b|e]; try discriminate;
    subst b; rewrite IH; reflexivity.
Qed.

Lemma and_loop_first_failure pre a post context :
  Forall (fun b => succeeds (guardOf b) context = true) pre ->
  succeeds (guardOf a) context = false ->
  and_loop (strategies (pre ++ a :: post)) context (UnauthorizedException None)
  = (pre ++ [a], inl (raised (guardOf a) context)).
Proof.
  intros Hpre Ha.
  induction Hpre as [|b pre Hb _ IH]; simpl.
  - unfold succeeds in Ha. unfold raised.
    destruct (guardOf a context) as [c|e|c|e]; try reflexivity;
      subst c; reflexivity.
  - unfold succeeds in Hb.
    destruct (guardOf b context) as [c|e|c|e]; try discriminate;
      subst c; rewrite IH; reflexivity.
Qed.

Lemma and_loop_granted tys context error log :
  and_loop (strategies tys) context error = (log, inr true) ->
  Forall (fun a => succeeds (guardOf a) context = true) tys.
Proof.
  revert log.
  induction tys as [|a tys IH]; intros log H; [constructor|].
  simpl in H.
  destruct (guardOf a context) as [b|e|b|e] eqn:Ea; try discriminate;
    destruct b; try discriminate;
    (constructor; [unfold succeeds; rewrite Ea; reflexivity|]);
    destruct (and_loop (strategies tys) context error) as [l r] eqn:El;
    unfold called in H; simpl in H; injection H as _ ->;
    eapply IH; reflexivity.
Qed.

Lemma canActivate_and context tys :
  declares context tys ConditionGuard.And ->
  canActivate SECRET_API_KEY accessTokenGuard context
  = and_loop (strategies tys) context (UnauthorizedException None).
Proof. intros H. unfold canActivate. rewrite H. reflexivity. Qed.

Lemma canActivate_or context tys :
  declares context tys ConditionGuard.Or ->
  canActivate SECRET_API_KEY accessTokenGuard context
  = or_loop (strategies tys) context (UnauthorizedException None).
Proof. intros H. unfold canActivate. rewrite H. reflexivity. Qed.

(** A route without metadata is open: [None] under [And]. *)
Lemma canActivate_default context :
  getAllAndOverride context = None ->
  canActivate SECRET_API_KEY accessTokenGuard context
  = ([AuthType.None], inr true).
Proof. intros H. unfold canActivate. rewrite H. reflexivity. Qed.

(** C8.  Under [And] the strategies are called in the order of the
    declaration.  The first one that does not succeed ends the run: the
    strategies called are those up to and including it, none after it,
    and the promise is rejected with what that strategy raised (thrown
    or rejected with; a strategy that merely answers [false] raises
    nothing and the exception prepared beforehand is used).  Access is
    granted exactly when every declared strategy succeeds.  With
    [Bearer] failing in front of [APIKey], access is denied with the
    error of [Bearer] and [APIKey] is not called. *)
Theorem C8_and_mode_fails_fast context tys :
  declares context tys ConditionGuard.And ->
  (forall pre a post,
      tys = pre ++ a :: post ->
      Forall (fun b => succeeds (guardOf b) context = true) pre ->
      succeeds (guardOf a) context = false ->
      canActivate SECRET_API_KEY accessTokenGuard context
      = (pre ++ [a], inl (raised (guardOf a) context)))
  /\ (Forall (fun a => succeeds (guardOf a) context = true) tys <->
      snd (canActivate SECRET_API_KEY accessTokenGuard context) = inr true)
  /\ (Forall (fun a => succeeds (guardOf a) context = true) tys ->
      fst (canActivate SECRET_API_KEY accessTokenGuard context) = tys)
  /\ (tys = [AuthType.Bearer; AuthType.APIKey] ->
      succeeds accessTokenGuard context = false ->
      canActivate SECRET_API_KEY accessTokenGuard context
      = ([AuthType.Bearer], inl (raised accessTokenGuard context))).
Proof.
  intros Hd. rewrite (canActivate_and _ _ Hd).
  repeat split.
  - intros pre a post -> Hpre Ha. by apply and_loop_first_failure.
  - intros H. by rewrite and_loop_all_succeed.
  - intros H.
    destruct (and_loop (strategies tys) context (UnauthorizedException None))
      as [l r] eqn:E.
    simpl in H. subst r. eapply and_loop_granted. exact E.
  - intros H. by rewrite and_loop_all_succeed.
  - intros -> Hb.
    apply (and_loop_first_failure [] AuthType.Bearer [AuthType.APIKey]);
      [constructor | exact Hb].
Qed.


Lemma or_loop_first_success pre a post context error :
  Forall (fun b => fails_quietly (guardOf b) context = true) pre ->
  succeeds (guardOf a) context = true ->
  or_loop (strategies (pre ++ a :: post)) context error
  = (pre ++ [a], inr true).
Proof.
  intros Hpre Ha. revert error.
  induction Hpre as [|b pre Hb _ IH]; intros error; simpl.
  - unfold succeeds in Ha.
    destruct (guardOf a context) as [c|e|c|e]; try discriminate;
      subst c; reflexivity.
  - unfold fails_quietly in Hb.
    destruct (guardOf b context) as [c|e|c|e]; try discriminate;
      try (destruct c; try discriminate); rewrite IH; reflexivity.
Qed.

Lemma or_loop_all_fail tys context error :
  Forall (fun b => fails_quietly (guardOf b) context = true) tys ->
  or_loop (strategies tys) context error
  = (tys, inl (last_rejection SECRET_API_KEY accessTokenGuard tys context error)).
Proof.
  intros H. revert error.
  induction H as [|b tys Hb _ IH]; intros error; simpl; [reflexivity|].
  unfold fails_quietly in Hb.
  destruct (guardOf b context) as [c|e|c|e]; try discriminate;
    try (destruct c; try discriminate); rewrite IH; reflexivity.
Qed.

(** A strategy that throws before handing back a promise ends the run of
    the [Or] branch, whatever the strategies after it would answer. *)
Lemma or_loop_sync_throw pre a post context error e :
  Forall (fun b => fails_quietly (guardOf b) context = true) pre ->
  guardOf a context = ThrowsSync e ->
  or_loop (strategies (pre ++ a :: post)) context error = (pre ++ [a], inl e).
Proof.
  intros Hpre Ha. revert error.
  induction Hpre as [|b pre Hb _ IH]; intros error; simpl.
  - rewrite Ha. reflexivity.
  - unfold fails_quietly in Hb.
    destruct (guardOf b context) as [c|e'|c|e']; try discriminate;
      try (destruct c; try discriminate); rewrite IH; reflexivity.
Qed.

End GuardProperties.

(** C8 on a request with a valid API key and a rejected bearer token. *)
Lemma C8_and_mode_witness :
  let context :=
    {| x_api_key := Some "k"; request := tt;
       handler_metadata :=
         Some (Auth [AuthType.Bearer; AuthType.APIKey] None);
       class_metadata := None |} in
  let bearer : CanActivate unit :=
    fun _ => RejectsAsync (UnauthorizedException (Some "jwt expired")) in
  succeeds (authTypeGuardMap "k" bearer AuthType.APIKey) context = true /\
  canActivate "k" bearer context
  = ([AuthType.Bearer], inl (UnauthorizedException (Some "jwt expired"))).
Proof.
  intros context bearer. split; [reflexivity|].
  destruct (C8_and_mode_fails_fast "k" bearer context
              [AuthType.Bearer; AuthType.APIKey] eq_refl) as (_ & _ & _ & H).
  apply H; reflexivity.
Defined.

(** C9.  The route declares [APIKey] then [None] under [Or] and the request
    carries no [x-api-key] header.  [None] succeeds, yet the composer
    never calls it: the synchronous throw of [APIKeyGuard] is not caught
    and the promise is rejected. *)
Lemma C9_or_mode_sync_throw_escapes :
  let context :=
    {| x_api_key := None; request := tt;
       handler_metadata :=
         Some (Auth [AuthType.APIKey; AuthType.None]
                    (Some {| condition := ConditionGuard.Or |}));
       class_metadata := None |} in
  let bearer : CanActivate unit := fun _ => ResolvesAsync true in
  declares context [AuthType.APIKey; AuthType.None] ConditionGuard.Or /\
  succeeds (authTypeGuardMap "k" bearer AuthType.None) context = true /\
  canActivate "k" bearer context
  = ([AuthType.APIKey], inl (UnauthorizedException None)).
Proof. intros context bearer. repeat split. Qed.

(** ** [AuthService] over arbitrary services *)

Section ServiceProperties.
Context {W : Type}.
Variable hashingService : HashingService W.
Variable prismaService : PrismaService W.
Variable tokenService : TokenService W.

Lemma refreshToken_catch (error : exn) (w : W) :
  (if isNotFoundPrismaError error
   then throw (A := Tokens)
          (UnauthorizedException (Some "Refresh token has been revoked"))
   else throw (UnauthorizedException None)) w
  = (inl (InFlight.rejection error), w).
Proof. unfold InFlight.rejection. destruct (isNotFoundPrismaError error); reflexivity. Qed.

(** A rejected verification is the whole run: the world is the one the
    token service left, and no other service has been called. *)
Lemma refreshToken_verify_rejected token w e w1 :
  verifyRefreshToken tokenService token w = (inl e, w1) ->
  AuthService.refreshToken prismaService tokenService token w
  = (inl (InFlight.rejection e), w1).
Proof.
  intros H. unfold AuthService.refreshToken, try_catch, bind.
  rewrite H. apply refreshToken_catch.
Qed.

(** What [register] does with a rejection of [user.create]. *)
Lemma register_create_rejected body w hashed w1 e w2 :
  hash hashingService (reg_password body) w = (inr hashed, w1) ->
  user_create prismaService
    {| uc_email := reg_email body; uc_password := hashed;
       uc_name := reg_name body |} w1 = (inl e, w2) ->
  AuthService.register hashingService prismaService body w
  = (inl (if isUnqueConstraintPrismaError e
          then ConflictException "Email already exists" else e), w2).
Proof.
  intros Hh Hc. unfold AuthService.register, try_catch, bind.
  rewrite Hh, Hc. destruct (isUnqueConstraintPrismaError e); reflexivity.
Qed.

(** A call that runs alone settles within seven steps, with the result
    and the world of [refreshToken]. *)
Lemma steps_refreshToken token w :
  InFlight.steps prismaService tokenService 7 token InFlight.AtVerify w
  = (InFlight.Settled
       (fst (AuthService.refreshToken prismaService tokenService token w)),
     snd (AuthService.refreshToken prismaService tokenService token w)).
Proof.
  unfold AuthService.refreshToken, AuthService.generateTokens, try_catch, bind.
  cbn [InFlight.steps InFlight.step InFlight.resume].
  destruct (verifyRefreshToken tokenService token w) as [[e|p] w1];
    cbn [InFlight.steps InFlight.step InFlight.resume fst snd];
    [by rewrite refreshToken_catch|].
  destruct (refreshToken_findUniqueOrThrow prismaService token w1) as [[e|row] w2];
    cbn [InFlight.steps InFlight.step InFlight.resume fst snd];
    [by rewrite refreshToken_catch|].
  destruct (refreshToken_delete prismaService token w2) as [[e|row'] w3];
    cbn [InFlight.steps InFlight.step InFlight.resume fst snd];
    [by rewrite refreshToken_catch|].
  destruct (signAccessToken tokenService (userId p) w3) as [[e|a] w4];
    cbn [InFlight.steps InFlight.step InFlight.resume fst snd];
    [by rewrite refreshToken_catch|].
  destruct (signRefreshToken tokenService (userId p) w4) as [[e|r] w5];
    cbn [InFlight.steps InFlight.step InFlight.resume fst snd];
    [by rewrite refreshToken_catch|].
  destruct (verifyRefreshToken tokenService r w5) as [[e|d] w6];
    cbn [InFlight.steps InFlight.step InFlight.resume fst snd];
    [by rewrite refreshToken_catch|].
  destruct (refreshToken_create prismaService _ w6) as [[e|row''] w7];
    cbn [InFlight.steps InFlight.step InFlight.resume fst snd];
    [by rewrite refreshToken_catch|].
  reflexivity.
Qed.

End ServiceProperties.

(** ** The application on the store in memory *)

Section AppProperties.
Variable lib : Libraries.
Variable envConfig : EnvConfig.

Abbreviation accessSecret := (ACCESS_TOKEN_SECRET envConfig).
Abbreviation accessLifetime := (ACCESS_TOKEN_EXPIRES_IN envConfig).
Abbreviation refreshSecret := (REFRESH_TOKEN_SECRET envConfig).
Abbreviation refreshLifetime := (REFRESH_TOKEN_EXPIRES_IN envConfig).

Lemma settle_inl_not_found {A} (r : LibResult A) e :
  settle r = inl e -> isNotFoundPrismaError e = false.
Proof. destruct r as [[n m]|a]; simpl; intros H; inversion H; reflexivity. Qed.

Lemma generateTokens_returns u w a r d :
  jwt_sign lib u accessSecret accessLifetime (now w) = inr a ->
  jwt_sign lib u refreshSecret refreshLifetime (now w) = inr r ->
  jwt_verify lib r refreshSecret (now w) = inr d ->
  refreshTokens w !! r = None ->
  App.generateTokens lib envConfig u w
  = (inr {| accessToken := a; refreshToken := r |}, issue r u d w).
Proof.
  intros Ha Hr Hd Hfree.
  unfold App.generateTokens, AuthService.generateTokens, bind. simpl.
  rewrite Ha, Hr. simpl. rewrite Hd. simpl. rewrite Hfree. reflexivity.
Qed.

(** When [generateTokens] is rejected, it is not with the not-found
    error of the store, and no row has been written. *)
Lemma generateTokens_rejected u w e w' :
  App.generateTokens lib envConfig u w = (inl e, w') ->
  isNotFoundPrismaError e = false /\
  refreshTokens w' = refreshTokens w /\ users w' = users w /\ now w' = now w.
Proof.
  unfold App.generateTokens, AuthService.generateTokens, bind. simpl.
  destruct (jwt_sign lib u accessSecret accessLifetime (now w)) as [[n m]|a];
    simpl; [intros H; inversion H; subst; auto|].
  destruct (jwt_sign lib u refreshSecret refreshLifetime (now w)) as [[n m]|r];
    simpl; [intros H; inversion H; subst; auto|].
  destruct (jwt_verify lib r refreshSecret (now w)) as [[n m]|d];
    simpl; [intros H; inversion H; subst; auto|].
  destruct (refreshTokens w !! r);
    simpl; intros H; inversion H; subst; auto.
Qed.

(** Conversely, a pair is returned only for a refresh token that was
    signed, verified and stored under its own text. *)
Lemma generateTokens_returned u w tokens w' :
  App.generateTokens lib envConfig u w = (inr tokens, w') ->
  exists d,
    jwt_sign lib u accessSecret accessLifetime (now w) = inr (accessToken tokens) /\
    jwt_sign lib u refreshSecret refreshLifetime (now w) = inr (refreshToken tokens) /\
    jwt_verify lib (refreshToken tokens) refreshSecret (now w) = inr d /\
    refreshTokens w !! refreshToken tokens = None /\
    w' = issue (refreshToken tokens) u d w.
Proof.
  unfold App.generateTokens, AuthService.generateTokens, bind. simpl.
  destruct (jwt_sign lib u accessSecret accessLifetime (now w)) as [[n m]|a];
    simpl; [discriminate|].
  destruct (jwt_sign lib u refreshSecret refreshLifetime (now w)) as [[n m]|r];
    simpl; [discriminate|].
  destruct (jwt_verify lib r refreshSecret (now w)) as [[n m]|d] eqn:Ed;
    simpl; [discriminate|].
  destruct (refreshTokens w !! r) eqn:Efree; simpl; [discriminate|].
  intros H; inversion H; subst. exists d. simpl. auto.
Qed.

Lemma refreshToken_redeems token w row p :
  refreshTokens w !! token = Some row ->
  jwt_verify lib token refreshSecret (now w) = inr p ->
  App.refreshToken lib envConfig token w
  = try_catch (App.generateTokens lib envConfig (userId p))
      (fun error =>
         if isNotFoundPrismaError error
         then throw (UnauthorizedException (Some "Refresh token has been revoked"))
         else throw (UnauthorizedException None))
      (redeem token w).
Proof.
  intros Hrow Hp.
  unfold App.refreshToken, AuthService.refreshToken, try_catch, bind. simpl.
  rewrite Hp. simpl. rewrite Hrow. simpl. rewrite Hrow. reflexivity.
Qed.

Lemma refreshToken_revoked token w p :
  refreshTokens w !! token = None ->
  jwt_verify lib token refreshSecret (now w) = inr p ->
  App.refreshToken lib envConfig token w
  = (inl (UnauthorizedException (Some "Refresh token has been revoked")),
     record_call (RefreshTokenFindUniqueOrThrow token) w).
Proof.
  intros Hrow Hp.
  unfold App.refreshToken, AuthService.refreshToken, try_catch, bind. simpl.
  rewrite Hp. simpl. rewrite Hrow. reflexivity.
Qed.

Lemma refreshToken_unverified token w err :
  jwt_verify lib token refreshSecret (now w) = inl err ->
  App.refreshToken lib envConfig token w = (inl (UnauthorizedException None), w).
Proof.
  intros H.
  unfold App.refreshToken.
  rewrite (refreshToken_verify_rejected _ _ token w (JsError (fst err) (snd err)) w).
  - reflexivity.
  - simpl. rewrite H. destruct err. reflexivity.
Qed.

(** C3.  A token that fails verification is answered with the
    message-less [UnauthorizedException], and the world is the one the
    call started in: no row has changed and the record of store calls
    has not grown, so no lookup, no deletion and no creation was
    attempted.  This does not depend on the store: with any store and any
    token service, the world after the call is the world the rejected
    verification left, and the call is rejected with an
    [UnauthorizedException]. *)
Theorem C3_unverified_token_touches_nothing token w err :
  jwt_verify lib token refreshSecret (now w) = inl err ->
  (App.refreshToken lib envConfig token w = (inl (UnauthorizedException None), w)
   /\ refreshTokens (snd (App.refreshToken lib envConfig token w)) = refreshTokens w
   /\ users (snd (App.refreshToken lib envConfig token w)) = users w
   /\ calls (snd (App.refreshToken lib envConfig token w)) = calls w)
  /\ (forall (W : Type) (prismaService : PrismaService W)
             (tokenService : TokenService W) (v : W) (e : exn) (v1 : W),
         verifyRefreshToken tokenService token v = (inl e, v1) ->
         exists message,
           AuthService.refreshToken prismaService tokenService token v
           = (inl (UnauthorizedException message), v1)).
Proof.
  intros H. split.
  - rewrite (refreshToken_unverified _ _ _ H). auto.
  - intros W prismaService tokenService v e v1 Hv.
    rewrite (refreshToken_verify_rejected _ _ _ _ _ _ Hv).
    unfold InFlight.rejection.
    destruct (isNotFoundPrismaError e); eexists; reflexivity.
Qed.

(** C4.  [generateTokens] stores one row: its key is the refresh token
    that was signed and is returned, its [expiresAt] is the [exp] claim
    read back from that token, in milliseconds; every other row is
    untouched and the store has been asked for exactly this one
    creation. *)
Theorem C4_generateTokens_stores_signed_token u w a r d :
  jwt_sign lib u accessSecret accessLifetime (now w) = inr a ->
  jwt_sign lib u refreshSecret refreshLifetime (now w) = inr r ->
  jwt_verify lib r refreshSecret (now w) = inr d ->
  refreshTokens w !! r = None ->
  exists w',
    App.generateTokens lib envConfig u w
    = (inr {| accessToken := a; refreshToken := r |}, w')
    /\ refreshTokens w' !! r
       = Some {| rt_token := r; rt_userId := u;
                 rt_expiresAt := exp d * 1000; rt_createdAt := now w |}
    /\ (forall k, k <> r -> refreshTokens w' !! k = refreshTokens w !! k)
    /\ size (refreshTokens w') = S (size (refreshTokens w))
    /\ calls w'
       = calls w ++ [RefreshTokenCreate
                       {| rc_token := r; rc_userId := u;
                          rc_expiresAt := exp d * 1000 |}]
    /\ users w' = users w.
Proof.
  intros Ha Hr Hd Hfree. exists (issue r u d w).
  split; [by apply generateTokens_returns|].
  unfold issue, issued_row, issue_data. simpl.
  repeat split.
  - apply lookup_insert_eq.
  - intros k Hk. by apply lookup_insert_ne.
  - by apply map_size_insert_None.
Qed.

End AppProperties.

Section AccountProperties.
Variable lib : Libraries.
Variable envConfig : EnvConfig.

Abbreviation accessSecret := (ACCESS_TOKEN_SECRET envConfig).
Abbreviation accessLifetime := (ACCESS_TOKEN_EXPIRES_IN envConfig).
Abbreviation refreshSecret := (REFRESH_TOKEN_SECRET envConfig).
Abbreviation refreshLifetime := (REFRESH_TOKEN_EXPIRES_IN envConfig).

Lemma find_user_app_new email us user :
  find_user email us = None ->
  user_email user = email ->
  find_user email (us ++ [user]) = Some user.
Proof.
  intros Hnone Hemail. unfold find_user in *.
  induction us as [|u us IH]; simpl in *.
  - rewrite Hemail, String.eqb_refl. reflexivity.
  - destruct (String.eqb (user_email u) email); [discriminate|]. by apply IH.
Qed.

Lemma register_new_email body w :
  find_user (reg_email body) (users w) = None ->
  let user :=
    {| user_id := Z.of_nat (length (users w)) + 1;
       user_email := reg_email body;
       user_name := reg_name body;
       user_password := bcrypt_hash lib (reg_password body) (salts w);
       user_createdAt := now w;
       user_updatedAt := now w |} in
  App.register lib body w
  = (inr user,
     set_users (users w ++ [user])
       (record_call
          (UserCreate {| uc_email := reg_email body;
                         uc_password := user_password user;
                         uc_name := reg_name body |})
          (draw_salt w))).
Proof.
  intros Hnew user.
  unfold App.register, AuthService.register, try_catch, bind. simpl.
  rewrite Hnew. reflexivity.
Qed.

Lemma register_taken_email body w u :
  find_user (reg_email body) (users w) = Some u ->
  App.register lib body w
  = (inl (ConflictException "Email already exists"),
     record_call
       (UserCreate {| uc_email := reg_email body;
                      uc_password := bcrypt_hash lib (reg_password body) (salts w);
                      uc_name := reg_name body |})
       (draw_salt w)).
Proof.
  intros Htaken.
  unfold App.register, AuthService.register, try_catch, bind. simpl.
  rewrite Htaken. reflexivity.
Qed.

Lemma login_unfold body w :
  App.login lib envConfig body w
  = let w1 := record_call (UserFindUnique (login_email body)) w in
    match find_user (login_email body) (users w) with
    | None =>
        (inl (UnauthorizedException (Some "Account does not exist")), w1)
    | Some user =>
        if bcrypt_compare lib (login_password body) (user_password user)
        then App.generateTokens lib envConfig (user_id user) w1
        else (inl (UnprocessableEntityException
                     [("password", "Incorrect password")]), w1)
    end.
Proof.
  unfold App.login, AuthService.login, bind. simpl.
  destruct (find_user (login_email body) (users w)) as [user|]; [|reflexivity].
  destruct (bcrypt_compare lib (login_password body) (user_password user));
    simpl; [|reflexivity].
  unfold App.generateTokens.
  destruct (AuthService.generateTokens memPrismaService
              (App.tokenService lib envConfig) (user_id user)
              (record_call (UserFindUnique (login_email body)) w))
    as [[e|tokens] w']; reflexivity.
Qed.

(** C7.  A new email is registered and, [dt] later, logs in with the
    same password.  Both calls succeed; the pair returned is the one
    signed for the id of the user that [register] created, so that the
    claims read back from either token by its own verifier carry that
    id.  The hypotheses are the behaviour expected of the libraries at
    this point: the hasher accepts the hash it has just produced, and a
    token that has just been signed verifies under the secret of its
    class with the [userId] that was signed. *)
Theorem C7_register_login_round_trip body w dt a r da dr :
  find_user (reg_email body) (users w) = None ->
  bcrypt_compare lib (reg_password body)
    (bcrypt_hash lib (reg_password body) (salts w)) = true ->
  jwt_sign lib (Z.of_nat (length (users w)) + 1)
    accessSecret accessLifetime (now w + dt) = inr a ->
  jwt_sign lib (Z.of_nat (length (users w)) + 1)
    refreshSecret refreshLifetime (now w + dt) = inr r ->
  jwt_verify lib a accessSecret (now w + dt) = inr da ->
  userId da = Z.of_nat (length (users w)) + 1 ->
  jwt_verify lib r refreshSecret (now w + dt) = inr dr ->
  userId dr = Z.of_nat (length (users w)) + 1 ->
  refreshTokens w !! r = None ->
  exists user w1 w2,
    App.register lib body w = (inr user, w1)
    /\ user_email user = reg_email body
    /\ App.login lib envConfig
         {| login_email := reg_email body;
            login_password := reg_password body |} (advance dt w1)
       = (inr {| accessToken := a; refreshToken := r |}, w2)
    /\ verifyAccessToken (App.tokenService lib envConfig) a w2 = (inr da, w2)
    /\ userId da = user_id user
    /\ verifyRefreshToken (App.tokenService lib envConfig) r w2 = (inr dr, w2)
    /\ userId dr = user_id user.
Proof.
  intros Hnew Hcmp Ha Hr Hda Hua Hdr Hur Hfree.
  eexists _, _, _.
  split; [apply (register_new_email body w Hnew)|].
  split; [reflexivity|].
  rewrite login_unfold. cbv zeta. simpl.
  erewrite find_user_app_new; [|exact Hnew|reflexivity]. simpl.
  rewrite Hcmp.
  split.
  - apply generateTokens_returns with (d := dr); simpl; assumption.
  - simpl. rewrite Hda, Hdr. simpl. auto.
Qed.

End AccountProperties.

(** C6.  [login] on the three kinds of request.  For any services: when
    the lookup finds no user, the call is rejected with "Account does not
    exist" in the world the lookup left; when it finds one and the
    comparison of the password with its hash answers [false], the call is
    rejected with "Incorrect password" in the world the comparison left;
    in both cases nothing more has run.  When the comparison answers
    [true], and only then, the rest of the run is [generateTokens] for the
    id of the user found.  On the store in memory, the two rejected calls
    leave the refresh-token table as it was and have asked the store for
    the lookup of the user only. *)
Theorem C6_login_checks_then_issues :
  (forall (W : Type) (hashingService : HashingService W)
          (prismaService : PrismaService W) (tokenService : TokenService W)
          (body : LoginBodyDTO) (w : W),
      (forall w1,
          user_findUnique prismaService (login_email body) w = (inr None, w1) ->
          AuthService.login hashingService prismaService tokenService body w
          = (inl (UnauthorizedException (Some "Account does not exist")), w1))
      /\ (forall user w1 w2,
             user_findUnique prismaService (login_email body) w
             = (inr (Some user), w1) ->
             compare hashingService (login_password body) (user_password user) w1
             = (inr false, w2) ->
             AuthService.login hashingService prismaService tokenService body w
             = (inl (UnprocessableEntityException
                       [("password", "Incorrect password")]), w2))
      /\ (forall user w1 w2,
             user_findUnique prismaService (login_email body) w
             = (inr (Some user), w1) ->
             compare hashingService (login_password body) (user_password user) w1
             = (inr true, w2) ->
             AuthService.login hashingService prismaService tokenService body w
             = AuthService.generateTokens prismaService tokenService
                 (user_id user) w2))
  /\ (forall (lib : Libraries) (envConfig : EnvConfig)
             (body : LoginBodyDTO) (w : World),
         (find_user (login_email body) (users w) = None
          \/ exists user,
               find_user (login_email body) (users w) = Some user
               /\ bcrypt_compare lib (login_password body) (user_password user)
                  = false) ->
         exists e,
           fst (App.login lib envConfig body w) = inl e
           /\ refreshTokens (snd (App.login lib envConfig body w))
              = refreshTokens w
           /\ calls (snd (App.login lib envConfig body w))
              = calls w ++ [UserFindUnique (login_email body)]).
Proof.
  split.
  - intros W hashingService prismaService tokenService body w.
    unfold AuthService.login, bind.
    split; [|split].
    + intros w1 ->. reflexivity.
    + intros user w1 w2 -> ->. reflexivity.
    + intros user w1 w2 -> ->. simpl.
      destruct (AuthService.generateTokens prismaService tokenService
                  (user_id user) w2) as [[e|tokens] w3]; reflexivity.
  - intros lib envConfig body w Hcase.
    rewrite login_unfold. cbv zeta.
    destruct Hcase as [-> | (user & -> & ->)]; eexists; repeat split.
Qed.

(** C5.  First, on the store in memory: registering an email that is
    taken is answered with the conflict "Email already exists" and the
    [User] table is left as it was.  Second, for any hasher and any store:
    when [user.create] is rejected, [register] is rejected with that
    conflict if the rejection is a uniqueness violation, and with the very
    same error otherwise. *)
Theorem C5_register_conflict_or_same_error :
  (forall (lib : Libraries) body w u,
      find_user (reg_email body) (users w) = Some u ->
      exists w',
        App.register lib body w
        = (inl (ConflictException "Email already exists"), w')
        /\ users w' = users w
        /\ refreshTokens w' = refreshTokens w)
  /\ (forall (W : Type) (hashingService : HashingService W)
             (prismaService : PrismaService W) body w hashed w1 e w2,
        hash hashingService (reg_password body) w = (inr hashed, w1) ->
        user_create prismaService
          {| uc_email := reg_email body; uc_password := hashed;
             uc_name := reg_name body |} w1 = (inl e, w2) ->
        (isUnqueConstraintPrismaError e = true ->
         AuthService.register hashingService prismaService body w
         = (inl (ConflictException "Email already exists"), w2))
        /\ (isUnqueConstraintPrismaError e = false ->
            AuthService.register hashingService prismaService body w
            = (inl e, w2))).
Proof.
  split.
  - intros lib body w u Htaken. eexists. split.
    + apply (register_taken_email lib body w u Htaken).
    + split; reflexivity.
  - intros W hashingService prismaService body w hashed w1 e w2 Hh Hc.
    rewrite (register_create_rejected _ _ _ _ _ _ _ _ Hh Hc).
    split; intros ->; reflexivity.
Qed.

Section RotationProperties.
Variable lib : Libraries.
Variable envConfig : EnvConfig.

Abbreviation accessSecret := (ACCESS_TOKEN_SECRET envConfig).
Abbreviation accessLifetime := (ACCESS_TOKEN_EXPIRES_IN envConfig).
Abbreviation refreshSecret := (REFRESH_TOKEN_SECRET envConfig).
Abbreviation refreshLifetime := (REFRESH_TOKEN_EXPIRES_IN envConfig).

(** C1, amended.  A stored token that verifies is redeemed by a call of
    [refreshToken] whenever the replacement pair can be issued, that is
    whenever [generateTokens] returns once the row is deleted: the call
    returns that pair, the row of the token is deleted and the row of the
    replacement is the only one added.  From then on, in every world in
    which the token has no row, a call with the same text is rejected:
    with "Refresh token has been revoked", and without any change to the
    tables, as long as the token still verifies; with the message-less
    exception, and without any store call, once it does not. *)
Theorem C1_refresh_redeems_once token w row p tokens w1 :
  refreshTokens w !! token = Some row ->
  jwt_verify lib token refreshSecret (now w) = inr p ->
  App.generateTokens lib envConfig (userId p) (redeem token w) = (inr tokens, w1) ->
  App.refreshToken lib envConfig token w = (inr tokens, w1)
  /\ (exists d,
        jwt_verify lib (refreshToken tokens) refreshSecret (now w) = inr d
        /\ refreshTokens w1
           = <[refreshToken tokens :=
                 issued_row (refreshToken tokens) (userId p) d w]>
               (delete token (refreshTokens w)))
  /\ (refreshToken tokens <> token -> refreshTokens w1 !! token = None)
  /\ forall w2,
      refreshTokens w2 !! token = None ->
      (forall p2,
          jwt_verify lib token refreshSecret (now w2) = inr p2 ->
          exists w3,
            App.refreshToken lib envConfig token w2
            = (inl (UnauthorizedException
                      (Some "Refresh token has been revoked")), w3)
            /\ refreshTokens w3 = refreshTokens w2
            /\ users w3 = users w2)
      /\ (forall err,
             jwt_verify lib token refreshSecret (now w2) = inl err ->
             App.refreshToken lib envConfig token w2
             = (inl (UnauthorizedException None), w2)).
Proof.
  intros Hrow Hp Hgen.
  destruct (generateTokens_returned lib envConfig _ _ _ _ Hgen)
    as (d & _ & _ & Hd & _ & ->).
  split; [|split; [|split]].
  - rewrite (refreshToken_redeems lib envConfig token w row p Hrow Hp).
    unfold try_catch. rewrite Hgen. reflexivity.
  - exists d. split; [exact Hd | reflexivity].
  - intros Hne. unfold issue, redeem. simpl.
    rewrite lookup_insert_ne by done. apply lookup_delete_eq.
  - intros w2 Habsent. split.
    + intros p2 Hp2. eexists. split.
      * apply (refreshToken_revoked lib envConfig token w2 p2 Habsent Hp2).
      * split; reflexivity.
    + intros err Herr. by apply (refreshToken_unverified lib envConfig token w2 err).
Qed.

(** C10.  The token was found and deleted, and [generateTokens] is then
    rejected, whatever the step and the error.  The call is rejected
    with the message-less [UnauthorizedException]; the world is the one
    the failed [generateTokens] left: the row of the old token is gone,
    nothing puts it back and no row has replaced it. *)
Theorem C10_failure_after_delete_keeps_deletion token w row p e w' :
  refreshTokens w !! token = Some row ->
  jwt_verify lib token refreshSecret (now w) = inr p ->
  App.generateTokens lib envConfig (userId p) (redeem token w) = (inl e, w') ->
  App.refreshToken lib envConfig token w = (inl (UnauthorizedException None), w')
  /\ refreshTokens w' = delete token (refreshTokens w)
  /\ refreshTokens w' !! token = None
  /\ users w' = users w.
Proof.
  intros Hrow Hp Hgen.
  destruct (generateTokens_rejected lib envConfig _ _ _ _ Hgen)
    as (Hnf & Htok & Husers & _).
  split; [|split; [|split]].
  - rewrite (refreshToken_redeems lib envConfig token w row p Hrow Hp).
    unfold try_catch. rewrite Hgen, Hnf. reflexivity.
  - rewrite Htok. reflexivity.
  - rewrite Htok. unfold redeem. simpl. apply lookup_delete_eq.
  - rewrite Husers. reflexivity.
Qed.

End RotationProperties.

(** ** Calls racing for one token *)

Section RaceProperties.
Variable lib : Libraries.
Variable envConfig : EnvConfig.
Variables (token : string) (p : TokenPayload) (a r : string) (d : TokenPayload).
Variable clock : Z.

Abbreviation accessSecret := (ACCESS_TOKEN_SECRET envConfig).
Abbreviation accessLifetime := (ACCESS_TOKEN_EXPIRES_IN envConfig).
Abbreviation refreshSecret := (REFRESH_TOKEN_SECRET envConfig).
Abbreviation refreshLifetime := (REFRESH_TOKEN_EXPIRES_IN envConfig).

Hypothesis Hp : jwt_verify lib token refreshSecret clock = inr p.
Hypothesis Ha : jwt_sign lib (userId p) accessSecret accessLifetime clock = inr a.
Hypothesis Hr : jwt_sign lib (userId p) refreshSecret refreshLifetime clock = inr r.
Hypothesis Hd : jwt_verify lib r refreshSecret clock = inr d.
Hypothesis Hne : r <> token.

Abbreviation stepA :=
  (InFlight.step memPrismaService (App.tokenService lib envConfig)).
Abbreviation inv := (Race.invariant token (userId p) a r d clock).

Lemma resume_call_length i (s : list (string * InFlight.Pc) * World) :
  length (fst (InFlight.resume_call memPrismaService
                 (App.tokenService lib envConfig) i s)) = length (fst s).
Proof.
  unfold InFlight.resume_call.
  destruct (fst s !! i) as [[t pc]|]; [|reflexivity].
  destruct (stepA t pc (snd s)) as [pc' w']. simpl. apply length_insert.
Qed.

Lemma step_undecided i pool w pc :
  now w = clock ->
  Race.undecided token (userId p) r (pool, w) ->
  pool !! i = Some (token, pc) ->
  inv (<[i := (token, fst (stepA token pc w))]> pool, snd (stepA token pc w)).
Proof.
  intros Hclock (Hrow & Hfree & Hall) Hi. simpl in *.
  assert (Hw : Race.waiting (userId p) pc).
  { rewrite Forall_lookup in Hall. by destruct (Hall i _ Hi). }
  destruct Hrow as [row Hrow].
  destruct pc as [|u'|u'| | | | |]; simpl in Hw; try done; subst.
  - (* verify *)
    simpl. rewrite Hp. simpl. split; [reflexivity|]. left.
    split; [by eexists|]. split; [done|]. simpl.
    apply Forall_insert; [done|]. simpl. done.
  - (* find *)
    simpl. rewrite Hrow. simpl. split; [reflexivity|]. left.
    split; [by eexists|]. split; [done|]. simpl.
    apply Forall_insert; [done|]. simpl. done.
  - (* delete *)
    simpl. rewrite Hrow. simpl. split; [reflexivity|]. right. exists i.
    split; [apply lookup_delete_eq|]. simpl.
    split.
    + eexists. split; [apply list_lookup_insert_eq; by eapply lookup_lt_Some|].
      split; [reflexivity|]. right. by rewrite lookup_delete_ne.
    + intros j c Hj Hc. simpl in Hc. rewrite list_lookup_insert_ne in Hc by done.
      rewrite Forall_lookup in Hall. destruct (Hall j c Hc) as [? ?].
      split; [done|]. by left.
Qed.

Lemma rejection_P2025 :
  InFlight.rejection P2025
  = UnauthorizedException (Some "Refresh token has been revoked").
Proof. reflexivity. Qed.

Lemma step_leading i pool w pc :
  now w = clock ->
  Race.decided token (userId p) a r d i (pool, w) ->
  pool !! i = Some (token, pc) ->
  inv (<[i := (token, fst (stepA token pc w))]> pool, snd (stepA token pc w)).
Proof.
  intros Hclock (Hgone & (pc0 & Hi0 & Hlead & Hstate) & Hothers) Hi.
  simpl in *. rewrite Hi in Hi0. injection Hi0 as <-.
  assert (Hlen : (i < length pool)%nat) by by eapply lookup_lt_Some.
  assert (Hkeep : forall pc' w',
    refreshTokens w' !! token = None ->
    Race.leading (userId p) a r d pc' ->
    (pc' = InFlight.Settled (Race.renewed a r) \/ refreshTokens w' !! r = None) ->
    now w' = clock ->
    inv (<[i := (token, pc')]> pool, w')).
  { intros pc' w' Hg Hl Hs Hc. split; [exact Hc|]. right. exists i.
    split; [exact Hg|]. split.
    - exists pc'. split; [by apply list_lookup_insert_eq|]. done.
    - intros j c Hj Hc'. simpl in Hc'.
      rewrite list_lookup_insert_ne in Hc' by done. by eapply Hothers. }
  subst clock.
  destruct pc as [|u'|u'|u'|u' a'|u' a' r'|u' a' r' d'|res];
    simpl in Hlead; try done.
  - subst u'. simpl. rewrite Ha. simpl.
    destruct Hstate as [?|Hfree]; [done|]. apply Hkeep; simpl; auto.
  - destruct Hlead as [-> ->]. simpl. rewrite Hr. simpl.
    destruct Hstate as [?|Hfree]; [done|]. apply Hkeep; simpl; auto.
  - destruct Hlead as (-> & -> & ->). simpl. rewrite Hd. simpl.
    destruct Hstate as [?|Hfree]; [done|]. apply Hkeep; simpl; auto.
  - destruct Hlead as (-> & -> & -> & ->). simpl.
    destruct Hstate as [?|Hfree]; [done|]. rewrite Hfree. simpl.
    apply Hkeep; simpl; auto.
    by rewrite lookup_insert_ne.
  - subst res. simpl. apply Hkeep; simpl; auto.
Qed.

Lemma step_losing i j pool w pc :
  now w = clock ->
  Race.decided token (userId p) a r d i (pool, w) ->
  j <> i ->
  pool !! j = Some (token, pc) ->
  inv (<[j := (token, fst (stepA token pc w))]> pool, snd (stepA token pc w)).
Proof.
  intros Hclock (Hgone & (pc0 & Hi0 & Hlead & Hstate) & Hothers) Hj Hjl.
  simpl in *.
  assert (Hlen : (j < length pool)%nat) by by eapply lookup_lt_Some.
  destruct (Hothers j _ Hj Hjl) as [_ Hlose]. simpl in Hlose.
  assert (Hkeep : forall pc' w',
    refreshTokens w' = refreshTokens w ->
    Race.losing (userId p) pc' ->
    now w' = clock ->
    inv (<[j := (token, pc')]> pool, w')).
  { intros pc' w' Hg Hl Hc. split; [exact Hc|]. right. exists i.
    unfold Race.decided. simpl. rewrite Hg.
    split; [exact Hgone|]. split.
    - exists pc0. split; [by rewrite list_lookup_insert_ne|]. done.
    - intros k c Hk Hc'.
      destruct (decide (k = j)) as [->|Hkj].
      + rewrite list_lookup_insert_eq in Hc' by done.
        injection Hc' as <-. done.
      + rewrite list_lookup_insert_ne in Hc' by done. by eapply Hothers. }
  subst clock.
  destruct Hlose as [Hw| ->].
  - destruct pc as [|u'|u'| | | | |]; simpl in Hw; try done; subst.
    + simpl. rewrite Hp. simpl. apply Hkeep; auto. by left.
    + simpl. rewrite Hgone. simpl. apply Hkeep; auto. by right.
    + simpl. rewrite Hgone. simpl. apply Hkeep; auto. by right.
  - simpl. apply Hkeep; auto. by right.
Qed.

Lemma resume_call_invariant j s :
  inv s ->
  inv (InFlight.resume_call memPrismaService
         (App.tokenService lib envConfig) j s).
Proof.
  destruct s as [pool w]. intros Hinv.
  unfold InFlight.resume_call. simpl.
  destruct (pool !! j) as [[t pc]|] eqn:Hj; [|exact Hinv].
  destruct Hinv as [Hclock [Hund | [i Hdec]]]; simpl in Hclock.
  - assert (t = token) as ->.
    { destruct Hund as (_ & _ & Hall). simpl in Hall.
      rewrite Forall_lookup in Hall. by destruct (Hall j _ Hj). }
    pose proof (step_undecided j pool w pc Hclock Hund Hj) as H.
    by destruct (stepA token pc w).
  - destruct (decide (j = i)) as [->|Hji].
    + assert (t = token) as ->.
      { destruct Hdec as (_ & (pc0 & Hi0 & _) & _). simpl in Hi0. congruence. }
      pose proof (step_leading i pool w pc Hclock Hdec Hj) as H.
      by destruct (stepA token pc w).
    + assert (t = token) as ->.
      { destruct Hdec as (_ & _ & Hothers). by destruct (Hothers j _ Hji Hj). }
      pose proof (step_losing i j pool w pc Hclock Hdec Hji Hj) as H.
      by destruct (stepA token pc w).
Qed.

Lemma run_invariant schedule s :
  inv s -> inv (App.run lib envConfig schedule s).
Proof.
  revert s. unfold App.run, InFlight.run.
  induction schedule as [|j schedule IH]; intros s Hinv; simpl; [exact Hinv|].
  apply IH. by apply resume_call_invariant.
Qed.

Lemma run_length schedule (s : list (string * InFlight.Pc) * World) :
  length (fst (App.run lib envConfig schedule s)) = length (fst s).
Proof.
  revert s. unfold App.run, InFlight.run.
  induction schedule as [|j schedule IH]; intros s; simpl; [reflexivity|].
  rewrite IH. apply resume_call_length.
Qed.

End RaceProperties.

Section Progress.
Context {W : Type}.
Variable prismaService : PrismaService W.
Variable tokenService : TokenService W.

Abbreviation step := (InFlight.step prismaService tokenService).
Abbreviation resume_call := (InFlight.resume_call prismaService tokenService).
Abbreviation run := (InFlight.run prismaService tokenService).

Lemma resume_remaining {A} (r : Outcome A * W) k n :
  (forall x, remaining (k x) <= n)%nat ->
  (remaining (fst (InFlight.resume r k)) <= n)%nat.
Proof. intros H. destruct r as [[e|x] w']; simpl; [lia|apply H]. Qed.

Lemma step_remaining token pc w :
  (remaining (fst (step token pc w)) <= remaining pc - 1)%nat.
Proof.
  destruct pc; simpl; try (apply resume_remaining; intros; simpl; lia). lia.
Qed.

Lemma resume_call_remaining j (s : list (string * InFlight.Pc) * W) i t pc :
  fst s !! i = Some (t, pc) ->
  exists pc',
    fst (resume_call j s) !! i = Some (t, pc')
    /\ (remaining pc' <= remaining pc - (if decide (j = i) then 1 else 0))%nat.
Proof.
  intros Hi. unfold InFlight.resume_call.
  destruct (fst s !! j) as [[t' pc0]|] eqn:Hj.
  - pose proof (step_remaining t' pc0 (snd s)) as Hstep.
    destruct (step t' pc0 (snd s)) as [pc1 w1]. simpl in *.
    destruct (decide (j = i)) as [->|Hne].
    + rewrite Hi in Hj. injection Hj as <- <-.
      exists pc1. split; [|exact Hstep].
      apply list_lookup_insert_eq. by eapply lookup_lt_Some.
    + exists pc. split; [by rewrite list_lookup_insert_ne|lia].
  - exists pc. split; [exact Hi|].
    destruct (decide (j = i)) as [->|Hne]; [congruence|lia].
Qed.

Lemma run_remaining schedule (s : list (string * InFlight.Pc) * W) i t pc :
  fst s !! i = Some (t, pc) ->
  exists pc',
    fst (run schedule s) !! i = Some (t, pc')
    /\ (remaining pc' <= remaining pc - count_occ Nat.eq_dec schedule i)%nat.
Proof.
  revert s pc. unfold InFlight.run.
  induction schedule as [|j schedule IH]; intros s pc Hi; simpl.
  - exists pc. split; [exact Hi|lia].
  - destruct (resume_call_remaining j s i t pc Hi) as (pc1 & H1 & Hle1).
    destruct (IH _ _ H1) as (pc2 & H2 & Hle2).
    exists pc2. split; [exact H2|].
    destruct (Nat.eq_dec j i) as [->|Hne].
    + rewrite decide_True in Hle1 by done. lia.
    + rewrite decide_False in Hle1 by done. lia.
Qed.

Lemma run_length_any schedule (s : list (string * InFlight.Pc) * W) :
  length (fst (run schedule s)) = length (fst s).
Proof.
  revert s. unfold InFlight.run.
  induction schedule as [|j schedule IH]; intros s; simpl; [reflexivity|].
  rewrite IH. unfold InFlight.resume_call.
  destruct (fst s !! j) as [[t pc]|]; [|reflexivity].
  destruct (step t pc (snd s)). simpl. apply length_insert.
Qed.

(** Every call that is resumed seven times has settled. *)
Lemma run_settles schedule (pool : list (string * InFlight.Pc)) (w : W) :
  (forall i, (i < length pool)%nat ->
             (7 <= count_occ Nat.eq_dec schedule i)%nat) ->
  Forall (fun c => InFlight.is_settled c = true) (fst (run schedule (pool, w))).
Proof.
  intros Hfair. apply Forall_lookup. intros i c Hc.
  assert (Hi : (i < length pool)%nat).
  { apply lookup_lt_Some in Hc. by rewrite run_length_any in Hc. }
  destruct (lookup_lt_is_Some_2 pool i Hi) as [[t pc] Hpc].
  destruct (run_remaining schedule (pool, w) i t pc Hpc) as (pc' & H' & Hle).
  rewrite H' in Hc. injection Hc as <-.
  specialize (Hfair i Hi).
  assert (remaining pc <= 7)%nat by (destruct pc; simpl; lia).
  unfold InFlight.is_settled. simpl.
  destruct pc'; simpl in Hle; try lia; reflexivity.
Qed.

End Progress.

Lemma filter_one {A} (f : A -> bool) (l : list A) i x :
  l !! i = Some x -> f x = true ->
  (forall j y, j <> i -> l !! j = Some y -> f y = false) ->
  length (List.filter f l) = 1%nat.
Proof.
  revert i. induction l as [|z l IH]; intros i Hi Hx Hrest; [done|].
  destruct i as [|i]; simpl in Hi.
  - injection Hi as ->. simpl. rewrite Hx. simpl. f_equal.
    assert (List.filter f l = []) as ->; [|done].
    clear IH. induction l as [|y l IH]; [done|]. simpl.
    rewrite (Hrest 1%nat y) by done.
    apply IH. intros [|j] y' Hj Hy; [done|].
    apply (Hrest (S (S j)) y'); [lia|done].
  - simpl. rewrite (Hrest 0%nat z) by done.
    apply (IH i Hi Hx). intros j y Hj Hy. apply (Hrest (S j) y); [lia|done].
Qed.

(** Calls racing for a token whose replacement is signed under a text
    that is new: [N] calls of [refreshToken] are given the same stored
    token and are resumed in any order, one service call at a time, until
    all have settled.  The [delete] of the store goes through for one
    call only. *)
Lemma race_single_winner
    (lib : Libraries) (envConfig : EnvConfig) (N : nat) (schedule : list nat)
    (token : string) (w : World) (row : RefreshToken)
    (p : TokenPayload) (a r : string) (d : TokenPayload) :
  (2 <= N)%nat ->
  refreshTokens w !! token = Some row ->
  jwt_verify lib token (REFRESH_TOKEN_SECRET envConfig) (now w) = inr p ->
  jwt_sign lib (userId p) (ACCESS_TOKEN_SECRET envConfig)
    (ACCESS_TOKEN_EXPIRES_IN envConfig) (now w) = inr a ->
  jwt_sign lib (userId p) (REFRESH_TOKEN_SECRET envConfig)
    (REFRESH_TOKEN_EXPIRES_IN envConfig) (now w) = inr r ->
  jwt_verify lib r (REFRESH_TOKEN_SECRET envConfig) (now w) = inr d ->
  r <> token ->
  refreshTokens w !! r = None ->
  let final :=
    App.run lib envConfig schedule (replicate N (token, InFlight.AtVerify), w) in
  Forall (fun c => InFlight.is_settled c = true) (fst final) ->
  (exists i,
      (i < N)%nat
      /\ fst final !! i = Some (token, InFlight.Settled (Race.renewed a r))
      /\ forall j, (j < N)%nat -> j <> i ->
                   fst final !! j = Some (token, InFlight.Settled Race.revoked))
  /\ length (List.filter InFlight.fulfilled (fst final)) = 1%nat
  /\ length (fst final) = N
  /\ refreshTokens (snd final) !! token = None.
Proof.
  intros HN Hrow Hp Ha Hr Hd Hne Hfree final Hsettled.
  assert (Hlen : length (fst final) = N).
  { unfold final. rewrite run_length. simpl. apply length_replicate. }
  assert (Hinv : Race.invariant token (userId p) a r d (now w) final).
  { apply (run_invariant lib envConfig token p a r d (now w) Hp Ha Hr Hd Hne).
    split; [reflexivity|]. left. split; [by eexists|]. split; [exact Hfree|].
    simpl. apply Forall_replicate. simpl. done. }
  destruct Hinv as [_ [Hund | [i Hdec]]].
  - exfalso. destruct Hund as (_ & _ & Hall).
    destruct (lookup_lt_is_Some_2 (fst final) 0) as [c Hc]; [lia|].
    rewrite Forall_lookup in Hall, Hsettled.
    destruct (Hall _ _ Hc) as [_ Hw]. specialize (Hsettled _ _ Hc).
    unfold InFlight.is_settled in Hsettled.
    destruct (snd c); simpl in Hw; done.
  - destruct Hdec as (Hgone & (pc & Hi & Hlead & _) & Hothers).
    assert (Hwin : pc = InFlight.Settled (Race.renewed a r)).
    { rewrite Forall_lookup in Hsettled. specialize (Hsettled _ _ Hi).
      unfold InFlight.is_settled in Hsettled. simpl in Hsettled.
      destruct pc; try done. simpl in Hlead. by rewrite Hlead. }
    subst pc.
    assert (Hlose : forall j, (j < N)%nat -> j <> i ->
              fst final !! j = Some (token, InFlight.Settled Race.revoked)).
    { intros j Hj Hji.
      destruct (lookup_lt_is_Some_2 (fst final) j) as [[t pc] Hc]; [lia|].
      destruct (Hothers j _ Hji Hc) as [Ht Hl]. simpl in Ht, Hl. rewrite Ht in Hc.
      rewrite Forall_lookup in Hsettled. specialize (Hsettled _ _ Hc).
      unfold InFlight.is_settled in Hsettled. simpl in Hsettled.
      destruct Hl as [Hw| ->]; [|done].
      destruct pc; simpl in Hw; done. }
    split; [|split; [|split; [exact Hlen|exact Hgone]]].
    + exists i. split; [|split; [exact Hi|exact Hlose]].
      apply lookup_lt_Some in Hi. lia.
    + apply (filter_one _ _ i _ Hi); [reflexivity|].
      intros j y Hj Hy.
      assert (Hjn : (j < N)%nat) by (apply lookup_lt_Some in Hy; lia).
      rewrite (Hlose j Hjn Hj) in Hy. by injection Hy as <-.
Qed.

(** ** Calls within the second of issue *)

Lemma settle_next {A} (x y : A) (k n : nat) :
  <[k := x]> (replicate k x ++ replicate (S n) y)
  = replicate (S k) x ++ replicate n y.
Proof.
  induction k as [|k IH]; [reflexivity|].
  change (x :: <[k := x]> (replicate k x ++ replicate (S n) y)
          = x :: replicate (S k) x ++ replicate n y).
  by rewrite IH.
Qed.

Section Reissue.
Context {W : Type}.
Variable prismaService : PrismaService W.
Variable tokenService : TokenService W.

(** Resuming one call [n] times in a row is that call running alone for
    [n] steps. *)
Lemma run_one_call n i (pool : list (string * InFlight.Pc)) (w : W) token pc :
  pool !! i = Some (token, pc) ->
  InFlight.run prismaService tokenService (replicate n i) (pool, w)
  = (<[i := (token,
             fst (InFlight.steps prismaService tokenService n token pc w))]> pool,
     snd (InFlight.steps prismaService tokenService n token pc w)).
Proof.
  unfold InFlight.run.
  revert pool w pc. induction n as [|n IH]; intros pool w pc Hi; simpl.
  - by rewrite list_insert_id.
  - unfold InFlight.resume_call at 2. simpl. rewrite Hi.
    destruct (InFlight.step prismaService tokenService token pc w) as [pc' w'].
    rewrite (IH _ w' pc').
    + by rewrite list_insert_insert_eq.
    + apply list_lookup_insert_eq. by apply lookup_lt_Some in Hi.
Qed.

Lemma run_app schedule schedule' (s : list (string * InFlight.Pc) * W) :
  InFlight.run prismaService tokenService (schedule ++ schedule') s
  = InFlight.run prismaService tokenService schedule'
      (InFlight.run prismaService tokenService schedule s).
Proof. apply fold_left_app. Qed.

(** A call that is resumed seven times in a row settles as
    [refreshToken] does. *)
Lemma run_whole_call i (pool : list (string * InFlight.Pc)) (w : W) token :
  pool !! i = Some (token, InFlight.AtVerify) ->
  InFlight.run prismaService tokenService (replicate 7 i) (pool, w)
  = (<[i := (token,
             InFlight.Settled
               (fst (AuthService.refreshToken prismaService tokenService
                       token w)))]> pool,
     snd (AuthService.refreshToken prismaService tokenService token w)).
Proof.
  intros Hi. rewrite (run_one_call 7 i pool w token _ Hi).
  by rewrite steps_refreshToken.
Qed.

End Reissue.

Section SameSecond.
Variable lib : Libraries.
Variable envConfig : EnvConfig.
Variable token : string.
Variable p : TokenPayload.
Variable a : string.
Variable clock : Z.
Hypothesis Hp :
  jwt_verify lib token (REFRESH_TOKEN_SECRET envConfig) clock = inr p.
Hypothesis Ha :
  jwt_sign lib (userId p) (ACCESS_TOKEN_SECRET envConfig)
    (ACCESS_TOKEN_EXPIRES_IN envConfig) clock = inr a.
Hypothesis Hr :
  jwt_sign lib (userId p) (REFRESH_TOKEN_SECRET envConfig)
    (REFRESH_TOKEN_EXPIRES_IN envConfig) clock = inr token.

(** Within the second in which the token was signed, [refreshToken]
    deletes the row and stores it again under the same text. *)
Lemma refreshToken_reissues w row :
  now w = clock ->
  refreshTokens w !! token = Some row ->
  App.refreshToken lib envConfig token w
  = (inr {| accessToken := a; refreshToken := token |},
     issue token (userId p) p (redeem token w)).
Proof.
  intros Hnow Hrow. subst clock.
  rewrite (refreshToken_redeems lib envConfig token w row p Hrow Hp).
  unfold try_catch.
  rewrite (generateTokens_returns lib envConfig (userId p) (redeem token w)
             a token p Ha Hr Hp); [reflexivity|].
  simpl. apply lookup_delete_eq.
Qed.

Lemma run_one_after_another n k w row :
  now w = clock ->
  refreshTokens w !! token = Some row ->
  let settled :=
    (token,
     InFlight.Settled (inr {| accessToken := a; refreshToken := token |})) in
  fst (App.run lib envConfig (flat_map (replicate 7) (seq k n))
         (replicate k settled ++ replicate n (token, InFlight.AtVerify), w))
  = replicate (k + n) settled.
Proof.
  intros Hnow Hrow settled. revert k w row Hnow Hrow.
  induction n as [|n IH]; intros k w row Hnow Hrow.
  - simpl. by rewrite app_nil_r, Nat.add_0_r.
  - change (flat_map (replicate 7) (seq k (S n)))
      with (replicate 7 k ++ flat_map (replicate 7) (seq (S k) n)).
    unfold App.run. rewrite run_app.
    rewrite (run_whole_call _ _ k _ w token).
    2:{ rewrite lookup_app_r by (rewrite length_replicate; lia).
        rewrite length_replicate, Nat.sub_diag. reflexivity. }
    fold (App.tokenService lib envConfig).
    change (AuthService.refreshToken memPrismaService
              (App.tokenService lib envConfig) token w)
      with (App.refreshToken lib envConfig token w).
    rewrite (refreshToken_reissues w row Hnow Hrow). cbn [fst snd].
    fold settled. rewrite settle_next.
    replace (k + S n)%nat with (S k + n)%nat by lia.
    apply (IH (S k) _ (issued_row token (userId p) p (redeem token w))).
    + exact Hnow.
    + simpl. apply lookup_insert_eq.
Qed.

End SameSecond.

(** C2.  [signRefreshToken] signs the owner with the second of issue and
    the second of expiry, and no [jti]: where signing for the owner of a
    token at the current clock gives the text of that token, as it does
    within the second of its issue, [N] calls of [refreshToken] that
    present the stored token and run one after another each delete the
    row, sign the replacement, which is the text presented, and store the
    row again.  Every one of the [N] calls is fulfilled, with the same
    pair, and none is rejected: for [N >= 2] that is two or more
    successes and no "Refresh token has been revoked", where exactly one
    success and [N - 1] rejections are asked for. *)
Theorem C2_same_second_reissue_all_fulfilled
    (lib : Libraries) (envConfig : EnvConfig) (N : nat)
    (token : string) (w : World) (row : RefreshToken)
    (p : TokenPayload) (a : string) :
  refreshTokens w !! token = Some row ->
  jwt_verify lib token (REFRESH_TOKEN_SECRET envConfig) (now w) = inr p ->
  jwt_sign lib (userId p) (ACCESS_TOKEN_SECRET envConfig)
    (ACCESS_TOKEN_EXPIRES_IN envConfig) (now w) = inr a ->
  jwt_sign lib (userId p) (REFRESH_TOKEN_SECRET envConfig)
    (REFRESH_TOKEN_EXPIRES_IN envConfig) (now w) = inr token ->
  let pair := {| accessToken := a; refreshToken := token |} in
  let first := App.refreshToken lib envConfig token w in
  let second := App.refreshToken lib envConfig token (snd first) in
  let final :=
    App.run lib envConfig (one_after_another N)
      (replicate N (token, InFlight.AtVerify), w) in
  fst first = inr pair
  /\ fst second = inr pair
  /\ fst final = replicate N (token, InFlight.Settled (inr pair))
  /\ length (List.filter InFlight.fulfilled (fst final)) = N.
Proof.
  intros Hrow Hp Ha Hr pair first second final.
  assert (H1 : first = (inr pair, issue token (userId p) p (redeem token w))).
  { apply (refreshToken_reissues lib envConfig token p a (now w) Hp Ha Hr w row);
      [reflexivity | exact Hrow]. }
  assert (H2 : fst second = inr pair).
  { unfold second. rewrite H1. simpl snd.
    rewrite (refreshToken_reissues lib envConfig token p a (now w) Hp Ha Hr _
               (issued_row token (userId p) p (redeem token w)));
      [reflexivity | reflexivity | simpl; apply lookup_insert_eq]. }
  assert (H3 : fst final = replicate N (token, InFlight.Settled (inr pair))).
  { apply (run_one_after_another lib envConfig token p a (now w) Hp Ha Hr
             N 0 w row); [reflexivity | exact Hrow]. }
  split; [by rewrite H1|]. split; [exact H2|]. split; [exact H3|].
  rewrite H3. clear. induction N as [|n IH]; simpl; [reflexivity|].
  by rewrite IH.
Qed.


(** ** The properties on concrete requests *)

(** C1 on the token Alice was issued: it is redeemed one second later, and
    presenting it again straight away is answered "revoked". *)
Lemma C1_refresh_redeems_once_witness :
  let renewed :=
    {| accessToken := "access-secret.1.3602.4502";
       refreshToken := "refresh-secret.1.3602.608402" |} in
  let w1 :=
    issue "refresh-secret.1.3602.608402" 1
      {| userId := 1; exp := 608402; iat := 3602 |}
      (redeem Sample.issued Sample.later) in
  App.refreshToken Sample.lib Sample.envConfig Sample.issued Sample.later
  = (inr renewed, w1)
  /\ refreshTokens w1 !! Sample.issued = None
  /\ fst (App.refreshToken Sample.lib Sample.envConfig Sample.issued w1)
     = inl (UnauthorizedException (Some "Refresh token has been revoked")).
Proof.
  intros renewed w1.
  destruct (C1_refresh_redeems_once Sample.lib Sample.envConfig
              Sample.issued Sample.later
              {| rt_token := Sample.issued; rt_userId := 1;
                 rt_expiresAt := 608401000; rt_createdAt := 3601000 |}
              {| userId := 1; exp := 608401; iat := 3601 |}
              renewed w1 eq_refl eq_refl eq_refl)
    as (Hcall & _ & Habsent & Hlater).
  split; [exact Hcall|].
  assert (Hgone : refreshTokens w1 !! Sample.issued = None)
    by (apply Habsent; discriminate).
  split; [exact Hgone|].
  destruct (Hlater w1 Hgone) as [Hrevoked _].
  destruct (Hrevoked {| userId := 1; exp := 608401; iat := 3601 |} eq_refl)
    as (w3 & Hcall3 & _).
  rewrite Hcall3. reflexivity.
Defined.

(** C1 as stated fails once the token has expired.  The token Alice was
    issued has a row; the call one second later is fulfilled and deletes
    the row; the same text presented after the lifetime of the token has
    passed is answered with the message-less exception, which is not the
    "revoked" one. *)
Lemma C1_reuse_after_expiry_not_revoked :
  let first :=
    App.refreshToken Sample.lib Sample.envConfig Sample.issued Sample.later in
  let second :=
    App.refreshToken Sample.lib Sample.envConfig Sample.issued
      (advance 700000000 (snd first)) in
  is_Some (refreshTokens Sample.later !! Sample.issued)
  /\ fst first = inr {| accessToken := "access-secret.1.3602.4502";
                        refreshToken := "refresh-secret.1.3602.608402" |}
  /\ refreshTokens (snd first) !! Sample.issued = None
  /\ fst second = inl (UnauthorizedException None)
  /\ fst second
     <> inl (UnauthorizedException (Some "Refresh token has been revoked")).
Proof.
  intros first second.
  split; [by eexists|].
  split; [reflexivity|].
  split; [reflexivity|].
  assert (H : fst second = inl (UnauthorizedException None)) by reflexivity.
  split; [exact H|]. rewrite H. discriminate.
Qed.

(** C2 within the second of Alice's login: two devices refresh with the
    token she was issued, one after the other, and then in turn with the
    [delete] of the second after the [create] of the first. *)
Lemma C2_same_second_reissue_all_fulfilled_witness :
  let pair := {| accessToken := "access-secret.1.3601.4501";
                 refreshToken := Sample.issued |} in
  (fst (App.run Sample.lib Sample.envConfig (one_after_another 2)
          (replicate 2 (Sample.issued, InFlight.AtVerify),
           snd Sample.logged_in))
   = replicate 2 (Sample.issued, InFlight.Settled (inr pair))
   /\ length (List.filter InFlight.fulfilled
                (fst (App.run Sample.lib Sample.envConfig (one_after_another 2)
                        (replicate 2 (Sample.issued, InFlight.AtVerify),
                         snd Sample.logged_in)))) = 2%nat)
  /\ fst (App.run Sample.lib Sample.envConfig
            [0; 1; 0; 1; 0; 0; 0; 0; 0; 1; 1; 1; 1; 1]%nat
            (replicate 2 (Sample.issued, InFlight.AtVerify),
             snd Sample.logged_in))
     = replicate 2 (Sample.issued, InFlight.Settled (inr pair)).
Proof.
  intros pair. split.
  - destruct (C2_same_second_reissue_all_fulfilled Sample.lib Sample.envConfig
                2 Sample.issued (snd Sample.logged_in)
                {| rt_token := Sample.issued; rt_userId := 1;
                   rt_expiresAt := 608401000; rt_createdAt := 3601000 |}
                {| userId := 1; exp := 608401; iat := 3601 |}
                "access-secret.1.3601.4501")
      as (_ & _ & Hfinal & Hcount);
      [vm_compute; reflexivity .. |].
    split; [exact Hfinal | exact Hcount].
  - vm_compute. reflexivity.
Defined.

(** C3 on a text that is no token at all. *)
Lemma C3_unverified_token_touches_nothing_witness :
  App.refreshToken Sample.lib Sample.envConfig "not-a-token" Sample.later
  = (inl (UnauthorizedException None), Sample.later).
Proof.
  exact (proj1 (proj1 (C3_unverified_token_touches_nothing
                         Sample.lib Sample.envConfig
                         "not-a-token" Sample.later
                         ("JsonWebTokenError", "jwt malformed") eq_refl))).
Defined.

(** C4 on the first pair issued to Alice. *)
Lemma C4_generateTokens_stores_signed_token_witness :
  exists w',
    App.generateTokens Sample.lib Sample.envConfig 1 (advance 1000 Sample.registered)
    = (inr {| accessToken := "access-secret.1.3601.4501";
              refreshToken := "refresh-secret.1.3601.608401" |}, w')
    /\ refreshTokens w' !! "refresh-secret.1.3601.608401"
       = Some {| rt_token := "refresh-secret.1.3601.608401"; rt_userId := 1;
                 rt_expiresAt := 608401 * 1000; rt_createdAt := 3601000 |}.
Proof.
  destruct (C4_generateTokens_stores_signed_token Sample.lib Sample.envConfig
              1 (advance 1000 Sample.registered)
              "access-secret.1.3601.4501" "refresh-secret.1.3601.608401"
              {| userId := 1; exp := 608401; iat := 3601 |}
              eq_refl eq_refl eq_refl eq_refl)
    as (w' & Hcall & Hrow & _).
  exists w'. split; [exact Hcall | exact Hrow].
Defined.

(** C5 on Alice registering a second time, and on a store that cannot be
    reached. *)
Lemma C5_register_conflict_or_same_error_witness :
  (exists w',
      App.register Sample.lib Sample.alice Sample.registered
      = (inl (ConflictException "Email already exists"), w')
      /\ users w' = users Sample.registered)
  /\ AuthService.register (memHashingService Sample.lib) Sample.offline
       Sample.alice Sample.empty
     = (inl Sample.unreachable, draw_salt Sample.empty).
Proof.
  destruct C5_register_conflict_or_same_error as [Htaken Hother].
  split.
  - destruct (Htaken Sample.lib Sample.alice Sample.registered
                {| user_id := 1; user_email := "alice@example.com";
                   user_name := "Alice"; user_password := "0$secret1";
                   user_createdAt := 3600000; user_updatedAt := 3600000 |}
                eq_refl) as (w' & Hcall & Husers & _).
    exists w'. split; [exact Hcall | exact Husers].
  - destruct (Hother World (memHashingService Sample.lib) Sample.offline
                Sample.alice Sample.empty "0$secret1" (draw_salt Sample.empty)
                Sample.unreachable (draw_salt Sample.empty) eq_refl eq_refl)
      as [_ Hsame].
    apply Hsame. reflexivity.
Defined.

(** C6 on Alice typing a wrong password. *)
Lemma C6_login_checks_then_issues_witness :
  let body :=
    {| login_email := "alice@example.com"; login_password := "wrong" |} in
  AuthService.login (memHashingService Sample.lib) memPrismaService
    (App.tokenService Sample.lib Sample.envConfig) body Sample.registered
  = (inl (UnprocessableEntityException [("password", "Incorrect password")]),
     record_call (UserFindUnique "alice@example.com") Sample.registered)
  /\ refreshTokens (snd (App.login Sample.lib Sample.envConfig body
                           Sample.registered))
     = refreshTokens Sample.registered.
Proof.
  intros body.
  destruct C6_login_checks_then_issues as [Hany Hmem].
  split.
  - destruct (Hany World (memHashingService Sample.lib) memPrismaService
                (App.tokenService Sample.lib Sample.envConfig) body
                Sample.registered) as (_ & Hwrong & _).
    apply (Hwrong {| user_id := 1; user_email := "alice@example.com";
                     user_name := "Alice"; user_password := "0$secret1";
                     user_createdAt := 3600000; user_updatedAt := 3600000 |}
                  (record_call (UserFindUnique "alice@example.com")
                     Sample.registered));
      reflexivity.
  - destruct (Hmem Sample.lib Sample.envConfig body Sample.registered)
      as (e & _ & Hrows & _); [|exact Hrows].
    right. eexists. split; reflexivity.
Defined.

(** C7 on Alice registering and logging in a second later. *)
Lemma C7_register_login_round_trip_witness :
  exists user w1 w2,
    App.register Sample.lib Sample.alice Sample.empty = (inr user, w1)
    /\ App.login Sample.lib Sample.envConfig Sample.alice_login (advance 1000 w1)
       = (inr {| accessToken := "access-secret.1.3601.4501";
                 refreshToken := "refresh-secret.1.3601.608401" |}, w2)
    /\ user_id user = 1.
Proof.
  destruct (C7_register_login_round_trip Sample.lib Sample.envConfig
              Sample.alice Sample.empty 1000
              "access-secret.1.3601.4501" "refresh-secret.1.3601.608401"
              {| userId := 1; exp := 4501; iat := 3601 |}
              {| userId := 1; exp := 608401; iat := 3601 |}
              eq_refl eq_refl eq_refl eq_refl eq_refl eq_refl eq_refl eq_refl
              eq_refl)
    as (user & w1 & w2 & Hreg & _ & Hlogin & _ & Hid & _).
  exists user, w1, w2. split; [exact Hreg|]. split; [exact Hlogin|].
  rewrite <- Hid. reflexivity.
Defined.

(** C10 on Alice's first token, presented in the very second in which her
    other device logged in: the replacement would carry the text of the
    token that device was issued, the store refuses it, and the first
    token is gone all the same. *)
Lemma C10_failure_after_delete_keeps_deletion_witness :
  exists w',
    App.refreshToken Sample.lib Sample.envConfig Sample.issued
      Sample.logged_in_twice
    = (inl (UnauthorizedException None), w')
    /\ refreshTokens w' !! Sample.issued = None
    /\ is_Some (refreshTokens Sample.logged_in_twice !! Sample.issued).
Proof.
  eexists.
  destruct (C10_failure_after_delete_keeps_deletion Sample.lib Sample.envConfig
              Sample.issued Sample.logged_in_twice
              {| rt_token := Sample.issued; rt_userId := 1;
                 rt_expiresAt := 608401000; rt_createdAt := 3601000 |}
              {| userId := 1; exp := 608401; iat := 3601 |}
              P2002
              (record_call
                 (RefreshTokenCreate
                    {| rc_token := "refresh-secret.1.3602.608402";
                       rc_userId := 1; rc_expiresAt := 608402000 |})
                 (redeem Sample.issued Sample.logged_in_twice))
              eq_refl eq_refl eq_refl)
    as (Hcall & _ & Hgone & _).
  split; [exact Hcall|]. split; [exact Hgone|]. by eexists.
Defined.

(** ** More on the guard composer *)

Section ComposerProperties.
Context {Req : Type}.
Variable SECRET_API_KEY : string.
Variable accessTokenGuard : CanActivate Req.

Abbreviation guardOf := (authTypeGuardMap SECRET_API_KEY accessTokenGuard).
Abbreviation strategies :=
  (map (fun authType : AuthType.t => (authType, guardOf authType))).
Abbreviation activate := (canActivate SECRET_API_KEY accessTokenGuard).

Lemma and_loop_settles (guards : list (AuthType.t * CanActivate Req))
    context error :
  snd (and_loop guards context error) = inr true
  \/ exists e, snd (and_loop guards context error) = inl e.
Proof.
  induction guards as [|[a instance] guards IH]; simpl; [by left|].
  destruct (instance context) as [b|e|b|e]; try destruct b; simpl; eauto.
Qed.

Lemma or_loop_settles (guards : list (AuthType.t * CanActivate Req))
    context error :
  snd (or_loop guards context error) = inr true
  \/ exists e, snd (or_loop guards context error) = inl e.
Proof.
  revert error.
  induction guards as [|[a instance] guards IH]; intros error; simpl; [eauto|].
  destruct (instance context) as [b|e|b|e]; try destruct b; simpl; eauto.
Qed.

Lemma and_loop_prefix tys context error :
  fst (and_loop (strategies tys) context error) `prefix_of` tys.
Proof.
  induction tys as [|a tys IH]; simpl; [done|].
  destruct (guardOf a context) as [b|e|b|e]; try destruct b; simpl;
    try (apply prefix_cons, prefix_nil); by apply prefix_cons.
Qed.

Lemma or_loop_prefix tys context error :
  fst (or_loop (strategies tys) context error) `prefix_of` tys.
Proof.
  revert error.
  induction tys as [|a tys IH]; intros error; simpl; [done|].
  destruct (guardOf a context) as [b|e|b|e]; try destruct b; simpl;
    try (apply prefix_cons, prefix_nil); apply prefix_cons, IH.
Qed.

(** X1.  Whatever the route declares, the promise of [canActivate] is
    never fulfilled with [false]: access is granted with [true] or the
    call is rejected with an exception. *)
Theorem canActivate_never_answers_false context :
  snd (activate context) = inr true
  \/ exists e, snd (activate context) = inl e.
Proof.
  unfold canActivate.
  destruct (decide _); [apply or_loop_settles | apply and_loop_settles].
Qed.

(** X2.  Under either combinator the strategies that are called are the
    first ones of the declaration, in its order, each once; unless the
    declaration is empty, the first one is always called. *)
Theorem canActivate_calls_a_prefix context tys c :
  declares context tys c ->
  fst (activate context) `prefix_of` tys
  /\ (tys <> [] -> exists rest, fst (activate context) = hd AuthType.None tys :: rest).
Proof.
  intros Hd. unfold canActivate. rewrite Hd. simpl.
  destruct (decide (c = ConditionGuard.Or)) as [_|_].
  - split; [apply or_loop_prefix|].
    intros Hne. destruct tys as [|a tys]; [done|]. simpl.
    destruct (guardOf a context) as [b|e|b|e]; try destruct b; simpl; eauto.
  - split; [apply and_loop_prefix|].
    intros Hne. destruct tys as [|a tys]; [done|]. simpl.
    destruct (guardOf a context) as [b|e|b|e]; try destruct b; simpl; eauto.
Qed.

(** X3.  Under [Or], when the strategies in front fail without throwing
    synchronously, the first strategy that succeeds grants access and no
    strategy after it is called. *)
Theorem or_mode_first_success_grants context pre a post :
  declares context (pre ++ a :: post) ConditionGuard.Or ->
  Forall (fun b => fails_quietly (guardOf b) context = true) pre ->
  succeeds (guardOf a) context = true ->
  activate context = (pre ++ [a], inr true).
Proof.
  intros Hd Hpre Ha. rewrite (canActivate_or _ _ _ _ Hd).
  by apply or_loop_first_success.
Qed.

(** X4.  Under [Or], when every strategy fails without throwing
    synchronously, all of them are called and the call is rejected with
    the error of the last promise that was rejected; when the last
    strategy is the one that rejects, with its error; when none rejects
    (all answer [false]), with the message-less [UnauthorizedException]
    prepared beforehand. *)
Theorem or_mode_all_fail_raises_last context tys :
  declares context tys ConditionGuard.Or ->
  Forall (fun b => fails_quietly (guardOf b) context = true) tys ->
  activate context
  = (tys, inl (last_rejection SECRET_API_KEY accessTokenGuard tys context
                 (UnauthorizedException None)))
  /\ (forall pre a e,
         tys = pre ++ [a] -> guardOf a context = RejectsAsync e ->
         snd (activate context) = inl e)
  /\ (Forall (fun b => forall e, guardOf b context <> RejectsAsync e) tys ->
      snd (activate context) = inl (UnauthorizedException None)).
Proof.
  intros Hd Hall. rewrite (canActivate_or _ _ _ _ Hd).
  rewrite (or_loop_all_fail _ _ _ _ _ Hall). simpl.
  split; [reflexivity|]. split.
  - intros pre a e -> Ha. f_equal.
    clear Hd Hall. generalize (UnauthorizedException None).
    induction pre as [|b pre IH]; intros error; simpl.
    + rewrite Ha. reflexivity.
    + destruct (guardOf b context); apply IH.
  - intros Hnone. f_equal.
    clear Hd Hall. induction Hnone as [|b tys Hb _ IH]; simpl; [reflexivity|].
    destruct (guardOf b context) as [c|e|c|e] eqn:Eb; try exact IH.
    by destruct (Hb e).
Qed.

(** X5.  Under [Or], a strategy that throws synchronously, such as the
    API-key guard on a wrong key, ends the run: the call is rejected with
    that error and the strategies declared after it are not called,
    whether they would succeed or not. *)
Theorem or_mode_sync_throw_ends_run context pre a post e :
  declares context (pre ++ a :: post) ConditionGuard.Or ->
  Forall (fun b => fails_quietly (guardOf b) context = true) pre ->
  guardOf a context = ThrowsSync e ->
  activate context = (pre ++ [a], inl e).
Proof.
  intros Hd Hpre Ha. rewrite (canActivate_or _ _ _ _ Hd).
  by apply or_loop_sync_throw.
Qed.

Lemma canActivate_single context a c :
  declares context [a] c ->
  activate context
  = ([a], if succeeds (guardOf a) context then inr true
          else inl (raised (guardOf a) context)).
Proof.
  intros Hd. unfold canActivate. rewrite Hd. simpl.
  unfold succeeds, raised.
  destruct (decide (c = ConditionGuard.Or)) as [_|_]; simpl;
    destruct (guardOf a context) as [b|e|b|e]; try destruct b; reflexivity.
Qed.

(** X6.  For a route that declares a single strategy the combinator makes
    no difference: under [And] and under [Or] alike, that strategy is
    called, access is granted when it succeeds and the call is rejected
    with what it raised otherwise. *)
Theorem single_strategy_ignores_combinator context a c c' :
  declares context [a] c ->
  activate context
  = ([a], if succeeds (guardOf a) context then inr true
          else inl (raised (guardOf a) context))
  /\ (forall context',
         declares context' [a] c' ->
         guardOf a context' = guardOf a context ->
         activate context' = activate context).
Proof.
  intros Hd. split; [by apply (canActivate_single context a c)|].
  intros context' Hd' Hsame.
  rewrite (canActivate_single context a c Hd).
  rewrite (canActivate_single context' a c' Hd').
  unfold succeeds, raised. rewrite Hsame. reflexivity.
Qed.

(** X7.  An empty declaration is read in opposite ways: under [And]
    every request is admitted, under [Or] every request is rejected with
    the message-less [UnauthorizedException]; in both cases no strategy
    is called. *)
Theorem empty_declaration_and_grants_or_rejects context c :
  declares context [] c ->
  activate context
  = ([], match c with
         | ConditionGuard.And => inr true
         | ConditionGuard.Or => inl (UnauthorizedException None)
         end).
Proof.
  intros Hd. unfold canActivate. rewrite Hd. simpl. by destruct c.
Qed.

(** X8.  [PostsController.findAll] admits exactly the requests whose
    bearer token the access-token guard accepts and whose [x-api-key]
    header equals the configured key; when the bearer token is refused
    the call is rejected with the error of the access-token guard and the
    API key is not looked at. *)
Theorem findAll_needs_bearer_and_api_key key (req : Req) :
  let context := PostsController.context PostsController.findAll key req in
  (snd (activate context) = inr true
   <-> succeeds accessTokenGuard context = true /\ key = Some SECRET_API_KEY)
  /\ (succeeds accessTokenGuard context = false ->
      activate context
      = ([AuthType.Bearer], inl (raised accessTokenGuard context))).
Proof.
  intros context. unfold canActivate. simpl.
  unfold succeeds, raised, apiKeyGuard, called. simpl.
  destruct (accessTokenGuard context) as [b|e|b|e]; try destruct b; simpl;
    destruct (decide (key = Some SECRET_API_KEY)); simpl;
    (split; [split; [intros H; try discriminate; auto
                    | intros [H1 H2]; try discriminate; try done]
            | intros H; try discriminate; reflexivity]).
Qed.

(** X9.  [create], [update] and [remove] of [PostsController] ask for the
    bearer token only: the access-token guard is the one strategy called,
    its verdict is the verdict, and the [x-api-key] header plays no
    part.  [findOne] carries no metadata and admits every request without
    calling the access-token guard or the API-key guard. *)
Theorem bearer_only_and_open_routes handler key (req : Req) :
  let context := PostsController.context handler key req in
  (handler = PostsController.create \/ handler = PostsController.update
   \/ handler = PostsController.remove ->
   activate context
   = ([AuthType.Bearer],
      if succeeds accessTokenGuard context then inr true
      else inl (raised accessTokenGuard context)))
  /\ (handler = PostsController.findOne ->
      activate context = ([AuthType.None], inr true)).
Proof.
  intros context. split.
  - intros Hh.
    apply (canActivate_single context AuthType.Bearer ConditionGuard.And).
    unfold declares, getAllAndOverride. subst context.
    destruct Hh as [->|[->| ->]]; reflexivity.
  - intros ->. reflexivity.
Qed.

End ComposerProperties.

(** ** More on [AuthService] over arbitrary services *)

(** X10.  Whatever the services do, a call of [refreshToken] that is
    rejected is rejected with an [UnauthorizedException], with the message
    "Refresh token has been revoked" or with none: no error of the store
    or of the token service reaches the caller. *)
Theorem refreshToken_rejects_with_unauthorized_only
    (W : Type) (prismaService : PrismaService W) (tokenService : TokenService W)
    (token : string) (w : W) (e : exn) (w' : W) :
  AuthService.refreshToken prismaService tokenService token w = (inl e, w') ->
  e = UnauthorizedException None
  \/ e = UnauthorizedException (Some "Refresh token has been revoked").
Proof.
  unfold AuthService.refreshToken, try_catch.
  destruct (bind _ _ w) as [[e0|tokens] w0]; [|discriminate].
  rewrite refreshToken_catch. intros H. injection H as <- _.
  unfold InFlight.rejection. destruct (isNotFoundPrismaError e0); auto.
Qed.

(** X11.  [login] has no [catch]: a rejection of the user lookup, of the
    password comparison or of [generateTokens] reaches the caller as it
    is, in the world the rejected call left; after a rejected lookup the
    hasher is not called, and after a rejected comparison no token is
    signed. *)
Theorem login_surfaces_rejections_unchanged
    (W : Type) (hashingService : HashingService W)
    (prismaService : PrismaService W) (tokenService : TokenService W)
    (body : LoginBodyDTO) (w : W) :
  (forall e w1,
      user_findUnique prismaService (login_email body) w = (inl e, w1) ->
      AuthService.login hashingService prismaService tokenService body w
      = (inl e, w1))
  /\ (forall user w1 e w2,
         user_findUnique prismaService (login_email body) w
         = (inr (Some user), w1) ->
         compare hashingService (login_password body) (user_password user) w1
         = (inl e, w2) ->
         AuthService.login hashingService prismaService tokenService body w
         = (inl e, w2))
  /\ (forall user w1 w2 e w3,
         user_findUnique prismaService (login_email body) w
         = (inr (Some user), w1) ->
         compare hashingService (login_password body) (user_password user) w1
         = (inr true, w2) ->
         AuthService.generateTokens prismaService tokenService (user_id user) w2
         = (inl e, w3) ->
         AuthService.login hashingService prismaService tokenService body w
         = (inl e, w3)).
Proof.
  unfold AuthService.login, bind. split; [|split].
  - intros e w1 ->. reflexivity.
  - intros user w1 e w2 -> ->. reflexivity.
  - intros user w1 w2 e w3 -> -> H. simpl. rewrite H. reflexivity.
Qed.

(** X12.  Whatever the services do, [generateTokens] returns a pair only
    after the store has accepted the row of its refresh token: the access
    token and the refresh token are the texts the token service signed,
    in this order, the refresh token was read back, and the creation of
    the row under that text, for that user and with [exp * 1000] of the
    payload read back, was the last call and was fulfilled. *)
Theorem generateTokens_returns_only_what_was_stored
    (W : Type) (prismaService : PrismaService W) (tokenService : TokenService W)
    (u : Z) (w : W) (tokens : Tokens) (w' : W) :
  AuthService.generateTokens prismaService tokenService u w = (inr tokens, w') ->
  exists w1 w2 d w3 row,
    signAccessToken tokenService u w = (inr (accessToken tokens), w1)
    /\ signRefreshToken tokenService u w1 = (inr (refreshToken tokens), w2)
    /\ verifyRefreshToken tokenService (refreshToken tokens) w2 = (inr d, w3)
    /\ refreshToken_create prismaService
         {| rc_token := refreshToken tokens; rc_userId := u;
            rc_expiresAt := exp d * 1000 |} w3 = (inr row, w').
Proof.
  unfold AuthService.generateTokens, bind.
  destruct (signAccessToken tokenService u w) as [[e|a] w1] eqn:Ha;
    [discriminate|].
  destruct (signRefreshToken tokenService u w1) as [[e|r] w2] eqn:Hr;
    [discriminate|].
  destruct (verifyRefreshToken tokenService r w2) as [[e|d] w3] eqn:Hd;
    [discriminate|].
  destruct (refreshToken_create prismaService _ w3) as [[e|row] w4] eqn:Hc;
    [discriminate|].
  intros H. injection H as <- <-. simpl.
  exists w1, w2, d, w3, row. auto.
Qed.

(** ** More on the application on the store in memory *)

Section StoreProperties.
Variable lib : Libraries.
Variable envConfig : EnvConfig.

Abbreviation accessSecret := (ACCESS_TOKEN_SECRET envConfig).
Abbreviation accessLifetime := (ACCESS_TOKEN_EXPIRES_IN envConfig).
Abbreviation refreshSecret := (REFRESH_TOKEN_SECRET envConfig).
Abbreviation refreshLifetime := (REFRESH_TOKEN_EXPIRES_IN envConfig).

Lemma find_user_none_fresh email us :
  find_user email us = None -> email ∉ map user_email us.
Proof.
  unfold find_user. induction us as [|u us IH]; simpl; intros H.
  - apply not_elem_of_nil.
  - destruct (String.eqb (user_email u) email) eqn:E; [discriminate|].
    apply not_elem_of_cons. split; [|by apply IH].
    intros ->. by rewrite String.eqb_refl in E.
Qed.

Lemma find_user_some email us user :
  find_user email us = Some user -> user ∈ us /\ user_email user = email.
Proof.
  unfold find_user. induction us as [|u us IH]; simpl; [discriminate|].
  destruct (String.eqb (user_email u) email) eqn:E.
  - intros H. injection H as <-. split; [apply list_elem_of_here|].
    by apply String.eqb_eq.
  - intros H. destruct (IH H) as [Hin He]. split; [by apply list_elem_of_further|done].
Qed.

(** The three ways a call of [refreshToken] can go on the store in memory. *)
Lemma refreshToken_cases token w :
  (exists err,
      jwt_verify lib token refreshSecret (now w) = inl err
      /\ App.refreshToken lib envConfig token w
         = (inl (UnauthorizedException None), w))
  \/ (exists p,
         jwt_verify lib token refreshSecret (now w) = inr p
         /\ refreshTokens w !! token = None
         /\ App.refreshToken lib envConfig token w
            = (inl (UnauthorizedException
                      (Some "Refresh token has been revoked")),
               record_call (RefreshTokenFindUniqueOrThrow token) w))
  \/ (exists p row,
         jwt_verify lib token refreshSecret (now w) = inr p
         /\ refreshTokens w !! token = Some row
         /\ ((exists tokens w1,
                 App.generateTokens lib envConfig (userId p) (redeem token w)
                 = (inr tokens, w1)
                 /\ App.refreshToken lib envConfig token w = (inr tokens, w1))
             \/ (exists e w1,
                    App.generateTokens lib envConfig (userId p) (redeem token w)
                    = (inl e, w1)
                    /\ App.refreshToken lib envConfig token w
                       = (inl (UnauthorizedException None), w1)))).
Proof.
  destruct (jwt_verify lib token refreshSecret (now w)) as [err|p] eqn:Hv.
  - left. exists err. split; [reflexivity|]. by eapply refreshToken_unverified.
  - right. destruct (refreshTokens w !! token) as [row|] eqn:Hrow.
    + right. exists p, row. split; [reflexivity|]. split; [reflexivity|].
      rewrite (refreshToken_redeems lib envConfig token w row p Hrow Hv).
      unfold try_catch.
      destruct (App.generateTokens lib envConfig (userId p) (redeem token w))
        as [[e|tokens] w1] eqn:Hgen.
      * right. exists e, w1. split; [reflexivity|].
        destruct (generateTokens_rejected lib envConfig _ _ _ _ Hgen) as [-> _].
        reflexivity.
      * left. exists tokens, w1. split; reflexivity.
    + left. exists p. split; [reflexivity|]. split; [reflexivity|].
      apply (refreshToken_revoked lib envConfig token w p Hrow Hv).
Qed.








(** X14.  A rejected [generateTokens] has written nothing: both tables
    are as they were, whichever step failed, and the error is never the
    not-found error of the store. *)
Theorem generateTokens_rejected_writes_nothing u w e w' :
  App.generateTokens lib envConfig u w = (inl e, w') ->
  refreshTokens w' = refreshTokens w /\ users w' = users w
  /\ isNotFoundPrismaError e = false.
Proof.
  intros H.
  destruct (generateTokens_rejected lib envConfig _ _ _ _ H) as (Hn & Ht & Hu & _).
  auto.
Qed.

(** X15.  A fulfilled [register] stores the hash, not the password: the
    user returned has the next id, the email and the name of the body and
    the hash the hasher produced; it is the user a lookup of that email
    finds afterwards, the users that were there before are still there in
    the same order, and the refresh-token table is untouched. *)
Theorem register_stores_hash_and_is_found body w user w' :
  App.register lib body w = (inr user, w') ->
  user = {| user_id := Z.of_nat (length (users w)) + 1;
            user_email := reg_email body;
            user_name := reg_name body;
            user_password := bcrypt_hash lib (reg_password body) (salts w);
            user_createdAt := now w;
            user_updatedAt := now w |}
  /\ find_user (reg_email body) (users w) = None
  /\ users w' = users w ++ [user]
  /\ find_user (reg_email body) (users w') = Some user
  /\ refreshTokens w' = refreshTokens w.
Proof.
  intros H.
  destruct (find_user (reg_email body) (users w)) as [u|] eqn:Hf.
  - rewrite (register_taken_email lib body w u Hf) in H. discriminate.
  - rewrite (register_new_email lib body w Hf) in H.
    injection H as <- <-. simpl.
    split; [reflexivity|]. split; [reflexivity|]. split; [reflexivity|].
    split; [|reflexivity].
    by apply find_user_app_new.
Qed.

(** X16.  The number of stored refresh tokens never grows under
    [refreshToken], and the users are never changed.  A fulfilled call
    leaves the number as it was: the row of the token presented existed
    and is replaced by the row of the refresh token returned.  A rejected
    call leaves the table as it was, or one row smaller: then the row of
    the token presented existed and is the one that is gone. *)
Theorem refreshToken_never_grows_the_table token w :
  (size (refreshTokens (snd (App.refreshToken lib envConfig token w)))
   <= size (refreshTokens w))%nat
  /\ users (snd (App.refreshToken lib envConfig token w)) = users w
  /\ (forall tokens w1,
         App.refreshToken lib envConfig token w = (inr tokens, w1) ->
         size (refreshTokens w1) = size (refreshTokens w)
         /\ refreshTokens w !! token <> None
         /\ refreshTokens w1 !! refreshToken tokens <> None)
  /\ (forall e w1,
         App.refreshToken lib envConfig token w = (inl e, w1) ->
         refreshTokens w1 = refreshTokens w
         \/ (refreshTokens w !! token <> None
             /\ refreshTokens w1 = delete token (refreshTokens w)
             /\ S (size (refreshTokens w1)) = size (refreshTokens w))).
Proof.
  assert (Hdel : forall row, refreshTokens w !! token = Some row ->
            S (size (delete token (refreshTokens w))) = size (refreshTokens w)).
  { intros row Hrow.
    rewrite <- (insert_delete_id (refreshTokens w) token row Hrow) at 2.
    rewrite map_size_insert_None by apply lookup_delete_eq. reflexivity. }
  destruct (refreshToken_cases token w)
    as [(err & _ & Hcall) | [(p & _ & _ & Hcall) | (p & row & _ & Hrow & Hgen)]].
  - rewrite Hcall. simpl. split; [lia|]. split; [reflexivity|].
    split; [discriminate|]. intros e w1 H. injection H as _ <-. by left.
  - rewrite Hcall. simpl. split; [lia|]. split; [reflexivity|].
    split; [discriminate|]. intros e w1 H. injection H as _ <-. by left.
  - destruct Hgen as [(tokens & w1 & H1 & Hcall) | (e & w1 & H1 & Hcall)];
      rewrite Hcall; simpl.
    + destruct (generateTokens_returned lib envConfig _ _ _ _ H1)
        as (d & _ & _ & _ & Hfree & ->).
      assert (Hsize : size (refreshTokens
                              (issue (refreshToken tokens) (userId p) d
                                 (redeem token w)))
                      = size (refreshTokens w)).
      { simpl. simpl in Hfree. rewrite map_size_insert_None by exact Hfree.
        by apply Hdel with row. }
      split; [lia|]. split; [reflexivity|].
      split; [|discriminate].
      intros tokens' w1' H. injection H as <- <-.
      split; [exact Hsize|]. split; [by rewrite Hrow|].
      simpl. by rewrite lookup_insert_eq.
    + destruct (generateTokens_rejected lib envConfig _ _ _ _ H1)
        as (_ & Ht & Hu & _).
      rewrite Ht, Hu. simpl. pose proof (Hdel row Hrow).
      split; [lia|]. split; [reflexivity|].
      split; [discriminate|].
      intros e' w1' H'. injection H' as _ <-. right.
      rewrite Ht. simpl. split; [by rewrite Hrow|]. split; [reflexivity|done].
Qed.

(** X17.  [login] hands out a pair only to a user that exists and whose
    stored hash the hasher accepts for the password given; the refresh
    token of the pair is then stored, under its own text, for that user
    and with the expiry read back from the token, as the one new row. *)
Theorem login_issues_only_after_both_checks body w tokens w' :
  App.login lib envConfig body w = (inr tokens, w') ->
  exists user d,
    find_user (login_email body) (users w) = Some user
    /\ bcrypt_compare lib (login_password body) (user_password user) = true
    /\ jwt_verify lib (refreshToken tokens) refreshSecret (now w) = inr d
    /\ refreshTokens w !! refreshToken tokens = None
    /\ refreshTokens w'
       = <[refreshToken tokens :=
             {| rt_token := refreshToken tokens; rt_userId := user_id user;
                rt_expiresAt := exp d * 1000; rt_createdAt := now w |}]>
           (refreshTokens w)
    /\ users w' = users w.
Proof.
  rewrite login_unfold. cbv zeta.
  destruct (find_user (login_email body) (users w)) as [user|]; [|discriminate].
  destruct (bcrypt_compare lib (login_password body) (user_password user)) eqn:Hcmp;
    [|discriminate].
  intros Hgen.
  destruct (generateTokens_returned lib envConfig _ _ _ _ Hgen)
    as (d & _ & _ & Hd & Hfree & ->).
  exists user, d. simpl in *. auto 7.
Qed.

(** X18.  A refresh token handed out by [login] is accepted by
    [refreshToken]: at any later time at which it still verifies and the
    replacement pair can be issued, and with no other request in between,
    the call returns the replacement pair. *)
Theorem login_token_is_redeemable body w tokens w1 dt p renewed w2 :
  App.login lib envConfig body w = (inr tokens, w1) ->
  jwt_verify lib (refreshToken tokens) refreshSecret (now w1 + dt) = inr p ->
  App.generateTokens lib envConfig (userId p)
    (redeem (refreshToken tokens) (advance dt w1)) = (inr renewed, w2) ->
  App.refreshToken lib envConfig (refreshToken tokens) (advance dt w1)
  = (inr renewed, w2).
Proof.
  intros Hlogin Hp Hgen.
  assert (Hrow : is_Some (refreshTokens (advance dt w1) !! refreshToken tokens)).
  { revert Hlogin. rewrite login_unfold. cbv zeta.
    destruct (find_user (login_email body) (users w)) as [user|]; [|discriminate].
    destruct (bcrypt_compare lib (login_password body) (user_password user));
      [|discriminate].
    intros H.
    destruct (generateTokens_returned lib envConfig _ _ _ _ H)
      as (d & _ & _ & _ & _ & ->).
    simpl. rewrite lookup_insert_eq. by eexists. }
  destruct Hrow as [row Hrow].
  rewrite (refreshToken_redeems lib envConfig _ _ row p Hrow Hp).
  unfold try_catch. rewrite Hgen. reflexivity.
Qed.

(** X19.  The JWT library signs the same text for the same user at the
    same reading of the clock.  So a second [generateTokens] for a user,
    at the clock reading of a first one that was fulfilled, is rejected
    with the uniqueness violation of the store (P2002), as it is, and
    leaves both tables as the first call left them. *)
Theorem generateTokens_twice_at_one_instant_collides u w tokens w1 :
  App.generateTokens lib envConfig u w = (inr tokens, w1) ->
  exists w2,
    App.generateTokens lib envConfig u w1 = (inl P2002, w2)
    /\ refreshTokens w2 = refreshTokens w1
    /\ users w2 = users w1.
Proof.
  intros Hgen.
  destruct (generateTokens_returned lib envConfig _ _ _ _ Hgen)
    as (d & Ha & Hr & Hd & _ & ->).
  eexists. split; [|split].
  - unfold App.generateTokens, AuthService.generateTokens, bind. simpl.
    rewrite Ha, Hr. simpl. rewrite Hd. simpl.
    rewrite lookup_insert_eq. reflexivity.
  - reflexivity.
  - reflexivity.
Qed.

End StoreProperties.

(** ** [PostsService] *)

(** X20.  Whatever the store does: [findOne], [update] and [remove] turn
    the not-found rejection of the store (P2025) into
    [NotFoundException('Post not found')] and rethrow every other
    rejection as it is; [create] and [findAll] hand every rejection back
    as it is, P2025 included.  In each case the world is the one the
    rejected call of the store left. *)
Theorem posts_not_found_or_rethrown
    (W : Type) (prismaService : PostPrisma W) (w : W) (e : exn) (w' : W) :
  let translated :=
    if isNotFoundPrismaError e then NotFoundException "Post not found"
    else Rethrown e in
  (forall postId,
      post_findUniqueOrThrow prismaService postId w = (inl e, w') ->
      PostsService.findOne prismaService postId w = (inl translated, w'))
  /\ (forall postId userId body,
         post_update prismaService postId userId body w = (inl e, w') ->
         PostsService.update prismaService postId userId body w
         = (inl translated, w'))
  /\ (forall postId userId,
         post_delete prismaService postId userId w = (inl e, w') ->
         PostsService.remove prismaService postId userId w
         = (inl translated, w'))
  /\ (forall userId body,
         post_create prismaService
           {| pc_title := body_title body; pc_content := body_content body;
              pc_authorId := userId |} w = (inl e, w') ->
         PostsService.create prismaService userId body w = (inl (Rethrown e), w'))
  /\ (forall userId,
         post_findMany prismaService userId w = (inl e, w') ->
         PostsService.findAll prismaService userId w = (inl (Rethrown e), w')).
Proof.
  intros translated.
  unfold PostsService.findOne, PostsService.update, PostsService.remove,
    PostsService.create, PostsService.findAll,
    PostsService.not_found_or_rethrow, PostsService.handed_back, bind.
  repeat split; intros; rewrite H; reflexivity.
Qed.

Section BlogProperties.

Lemma owned_some id authorId b post :
  owned id authorId b = Some post <->
  blog_posts b !! id = Some post /\ post_authorId post = authorId.
Proof.
  unfold owned. destruct (blog_posts b !! id) as [q|]; [|split; [done|by intros [? _]]].
  destruct (Z.eqb_spec (post_authorId q) authorId) as [He|Hne].
  - split; [intros H; by injection H as <- | by intros [H _]].
  - split; [done|]. intros [H He]. injection H as ->. done.
Qed.

Lemma owned_none id authorId b :
  owned id authorId b = None <->
  (forall post, blog_posts b !! id = Some post -> post_authorId post <> authorId).
Proof.
  split.
  - intros Hn post Hp He.
    assert (owned id authorId b = Some post) by by apply owned_some.
    congruence.
  - intros H. destruct (owned id authorId b) as [post|] eqn:Ho; [|done].
    apply owned_some in Ho as [Hp He]. by destruct (H post Hp).
Qed.

(** X21.  A post can be changed or removed by its author only: [update]
    and [remove] for an id that is missing, or that belongs to another
    user, are both rejected with [NotFoundException('Post not found')]
    and leave the blog exactly as it was. *)
Theorem posts_update_remove_need_the_author id userId body b :
  (forall post, blog_posts b !! id = Some post -> post_authorId post <> userId) ->
  Posts.update id userId body b = (inl (NotFoundException "Post not found"), b)
  /\ Posts.remove id userId b = (inl (NotFoundException "Post not found"), b).
Proof.
  intros H. apply owned_none in H.
  unfold Posts.update, Posts.remove, PostsService.update, PostsService.remove,
    PostsService.not_found_or_rethrow, bind. simpl.
  rewrite H. split; reflexivity.
Qed.

(** X22.  [remove] by the author answers [true] and deletes that post and
    no other; afterwards [findOne] of the id, and a second [remove], are
    rejected with [NotFoundException('Post not found')]. *)
Theorem posts_remove_by_author_deletes id userId b post :
  blog_posts b !! id = Some post ->
  post_authorId post = userId ->
  exists b',
    Posts.remove id userId b = (inr true, b')
    /\ blog_posts b' = delete id (blog_posts b)
    /\ blog_users b' = blog_users b
    /\ (forall k, k <> id -> blog_posts b' !! k = blog_posts b !! k)
    /\ Posts.findOne id b' = (inl (NotFoundException "Post not found"), b')
    /\ Posts.remove id userId b'
       = (inl (NotFoundException "Post not found"), b').
Proof.
  intros Hp He.
  assert (Ho : owned id userId b = Some post) by by apply owned_some.
  exists (set_posts (delete id (blog_posts b)) b).
  unfold Posts.remove, Posts.findOne, PostsService.remove, PostsService.findOne,
    PostsService.not_found_or_rethrow, bind. simpl.
  rewrite Ho. simpl. unfold owned. simpl. rewrite lookup_delete_eq.
  repeat split. intros k Hk. by apply lookup_delete_ne.
Qed.

(** X23.  [create] for a known user stores one post, under the next id,
    with the title and the content of the body and that user as author;
    [findOne] of that id hands back what [create] returned; every post
    that was there is untouched.  On a blog in order the id is a new one
    and the blog stays in order.  For an unknown user [create] is
    rejected with the foreign-key error of the store (P2003), as it is,
    and stores nothing. *)
Theorem posts_create_then_findOne userId body b :
  (forall author,
      find_author userId (blog_users b) = Some author ->
      let post :=
        {| post_id := blog_seq b + 1; post_title := body_title body;
           post_content := body_content body; post_authorId := userId |} in
      let created := {| pa_post := post; pa_author := author |} in
      exists b',
        Posts.create userId body b = (inr created, b')
        /\ blog_posts b' = <[blog_seq b + 1 := post]> (blog_posts b)
        /\ (forall k, k <> blog_seq b + 1 ->
                      blog_posts b' !! k = blog_posts b !! k)
        /\ Posts.findOne (blog_seq b + 1) b' = (inr created, b')
        /\ (blog_in_order b ->
            blog_posts b !! (blog_seq b + 1) = None /\ blog_in_order b'))
  /\ (find_author userId (blog_users b) = None ->
      Posts.create userId body b = (inl (Rethrown P2003), b)).
Proof.
  unfold Posts.create, Posts.findOne, PostsService.create, PostsService.findOne,
    PostsService.handed_back, PostsService.not_found_or_rethrow. simpl.
  split.
  - intros author Ha. cbv zeta. rewrite Ha. eexists.
    split; [reflexivity|]. simpl.
    split; [reflexivity|].
    split; [intros k Hk; by apply lookup_insert_ne|].
    split.
    + rewrite lookup_insert_eq. unfold with_author. simpl. rewrite Ha. reflexivity.
    + intros Hord.
      assert (Hfree : blog_posts b !! (blog_seq b + 1) = None).
      { destruct (blog_posts b !! (blog_seq b + 1)) as [q|] eqn:Hq; [|done].
        destruct (Hord _ _ Hq) as (_ & Hle & _). lia. }
      split; [exact Hfree|].
      apply map_Forall_insert_2.
      * simpl. split; [reflexivity|]. split; [lia|]. rewrite Ha. by eexists.
      * intros k q Hq. destruct (Hord _ _ Hq) as (Hid & Hle & Hau).
        simpl. split; [exact Hid|]. split; [lia|exact Hau].
  - intros ->. reflexivity.
Qed.

(** X24.  [findAll] is never rejected and changes nothing; it returns the
    posts of the user asking and of nobody else: an item is returned
    exactly when its post is stored, has that user as author, and comes
    with that user, the password left out.  On a blog in order every
    stored post of the user is among them. *)
Theorem posts_findAll_returns_own_posts userId b :
  exists found,
    Posts.findAll userId b = (inr found, b)
    /\ (forall item,
           item ∈ found <->
           exists id,
             blog_posts b !! id = Some (pa_post item)
             /\ post_authorId (pa_post item) = userId
             /\ find_author userId (blog_users b) = Some (pa_author item))
    /\ (blog_in_order b ->
        forall id post,
          blog_posts b !! id = Some post -> post_authorId post = userId ->
          exists item, item ∈ found /\ pa_post item = post).
Proof.
  unfold Posts.findAll, PostsService.findAll, PostsService.handed_back. simpl.
  eexists. split; [reflexivity|].
  assert (Hmem : forall item,
    item ∈ omap (fun entry : Z * Post =>
                   if Z.eqb (post_authorId (snd entry)) userId
                   then with_author b (snd entry) else None)
                (map_to_list (blog_posts b)) <->
    exists id,
      blog_posts b !! id = Some (pa_post item)
      /\ post_authorId (pa_post item) = userId
      /\ find_author userId (blog_users b) = Some (pa_author item)).
  { intros item. rewrite list_elem_of_omap. split.
    - intros ([id post] & Hin & Hf). apply elem_of_map_to_list in Hin. simpl in Hf.
      destruct (Z.eqb_spec (post_authorId post) userId) as [He|]; [|done].
      unfold with_author in Hf. rewrite He in Hf.
      destruct (find_author userId (blog_users b)) as [author|]; [|done].
      simpl in Hf. injection Hf as <-. simpl. exists id. auto.
    - intros (id & Hp & He & Ha). exists (id, pa_post item).
      split; [by apply elem_of_map_to_list|]. simpl.
      rewrite <- He, Z.eqb_refl. unfold with_author. rewrite He, Ha. simpl.
      by destruct item. }
  split; [exact Hmem|].
  intros Hord id post Hp He.
  destruct (Hord _ _ Hp) as (_ & _ & [author Ha]). rewrite He in Ha.
  exists {| pa_post := post; pa_author := author |}. split; [|reflexivity].
  apply Hmem. exists id. simpl. auto.
Qed.

(** X25.  [update] by the author replaces the title and the content of
    that post and nothing else: the id and the author of the post stay,
    every other post is untouched, the users are untouched, and [findOne]
    of the id hands back what [update] returned. *)
Theorem posts_update_by_author_rewrites id userId body b post author :
  blog_posts b !! id = Some post ->
  post_authorId post = userId ->
  find_author userId (blog_users b) = Some author ->
  let post' :=
    {| post_id := post_id post; post_title := body_title body;
       post_content := body_content body; post_authorId := userId |} in
  let updated := {| pa_post := post'; pa_author := author |} in
  exists b',
    Posts.update id userId body b = (inr updated, b')
    /\ blog_posts b' = <[id := post']> (blog_posts b)
    /\ (forall k, k <> id -> blog_posts b' !! k = blog_posts b !! k)
    /\ blog_users b' = blog_users b
    /\ Posts.findOne id b' = (inr updated, b').
Proof.
  intros Hp He Ha post' updated.
  assert (Ho : owned id userId b = Some post) by by apply owned_some.
  unfold Posts.update, Posts.findOne, PostsService.update, PostsService.findOne,
    PostsService.not_found_or_rethrow. simpl.
  rewrite Ho. unfold with_author. simpl. rewrite He, Ha. simpl.
  eexists. split; [reflexivity|]. simpl.
  split; [reflexivity|].
  split; [intros k Hk; by apply lookup_insert_ne|].
  split; [reflexivity|].
  rewrite lookup_insert_eq. simpl. rewrite Ha. reflexivity.
Qed.

Lemma blog_in_order_same b b' :
  blog_users b' = blog_users b -> blog_posts b' = blog_posts b ->
  blog_seq b' = blog_seq b -> blog_in_order b -> blog_in_order b'.
Proof. unfold blog_in_order. intros -> -> ->. done. Qed.

(** A blog in order stays in order under every method of the service,
    fulfilled or rejected. *)
Lemma posts_keep_blog_in_order b :
  blog_in_order b ->
  (forall userId body, blog_in_order (snd (Posts.create userId body b)))
  /\ (forall userId, blog_in_order (snd (Posts.findAll userId b)))
  /\ (forall postId, blog_in_order (snd (Posts.findOne postId b)))
  /\ (forall postId userId body,
         blog_in_order (snd (Posts.update postId userId body b)))
  /\ (forall postId userId, blog_in_order (snd (Posts.remove postId userId b))).
Proof.
  intros Hord.
  unfold Posts.create, Posts.findAll, Posts.findOne, Posts.update, Posts.remove,
    PostsService.create, PostsService.findAll, PostsService.findOne,
    PostsService.update, PostsService.remove,
    PostsService.handed_back, PostsService.not_found_or_rethrow, bind.
  simpl. split; [|split; [|split; [|split]]].
  - intros userId body.
    destruct (find_author userId (blog_users b)) as [author|] eqn:Ha; simpl;
      [|exact Hord].
    apply map_Forall_insert_2.
    + simpl. split; [reflexivity|]. split; [lia|]. rewrite Ha. by eexists.
    + intros k q Hq. destruct (Hord _ _ Hq) as (Hid & Hle & Hau).
      simpl. split; [exact Hid|]. split; [lia|exact Hau].
  - intros userId. exact Hord.
  - intros postId.
    destruct (blog_posts b !! postId) as [post|]; [|exact Hord].
    destruct (with_author b post); exact Hord.
  - intros postId userId body.
    destruct (owned postId userId b) as [post|] eqn:Ho; [|exact Hord].
    apply owned_some in Ho as [Hp He].
    destruct (Hord _ _ Hp) as (Hid & Hle & [author Ha]).
    unfold with_author. simpl. rewrite Ha. simpl.
    apply map_Forall_insert_2; [|exact Hord].
    simpl. split; [exact Hid|]. split; [exact Hle|]. rewrite Ha. by eexists.
  - intros postId userId.
    destruct (owned postId userId b) as [post|] eqn:Ho; [|exact Hord].
    simpl. by apply map_Forall_delete.
Qed.

Lemma perform_keeps_blog_in_order userId call b :
  blog_in_order b -> blog_in_order (perform userId call b).
Proof.
  intros Hord.
  destruct (posts_keep_blog_in_order b Hord) as (H1 & H2 & H3 & H4 & H5).
  destruct call; simpl; auto.
Qed.

Lemma perform_leaves_others userId call b id post :
  blog_in_order b ->
  blog_posts b !! id = Some post ->
  post_authorId post <> userId ->
  blog_posts (perform userId call b) !! id = Some post.
Proof.
  intros Hord Hp Hne.
  destruct call as [body| |postId|postId body|postId]; simpl;
    unfold Posts.create, Posts.findAll, Posts.findOne, Posts.update, Posts.remove,
      PostsService.create, PostsService.findAll, PostsService.findOne,
      PostsService.update, PostsService.remove,
      PostsService.handed_back, PostsService.not_found_or_rethrow, bind; simpl.
  - destruct (find_author userId (blog_users b)) as [author|]; simpl; [|exact Hp].
    rewrite lookup_insert_ne; [exact Hp|].
    destruct (Hord _ _ Hp) as (_ & Hle & _). lia.
  - exact Hp.
  - destruct (blog_posts b !! postId) as [q|]; [|exact Hp].
    destruct (with_author b q); exact Hp.
  - destruct (owned postId userId b) as [q|] eqn:Ho; [|exact Hp].
    apply owned_some in Ho as [Hq He].
    destruct (with_author b _); simpl; [|exact Hp].
    rewrite lookup_insert_ne; [exact Hp|].
    intros ->. rewrite Hp in Hq. injection Hq as <-. done.
  - destruct (owned postId userId b) as [q|] eqn:Ho; [|exact Hp].
    apply owned_some in Ho as [Hq He]. simpl.
    rewrite lookup_delete_ne; [exact Hp|].
    intros ->. rewrite Hp in Hq. injection Hq as <-. done.
Qed.

(** X26.  Whatever a user asks of [PostsService], in any number and
    order of [create], [findAll], [findOne], [update] and [remove] calls
    made with the id of that user, the posts of every other user stay as
    they are: stored under the same id, with the same title, content and
    author.  The blog is one in order, so that the id [create] takes is a
    new one. *)
Theorem posts_of_other_users_are_untouched userId calls b id post :
  blog_in_order b ->
  blog_posts b !! id = Some post ->
  post_authorId post <> userId ->
  blog_posts (perform_all userId calls b) !! id = Some post.
Proof.
  revert b. unfold perform_all.
  induction calls as [|call calls IH]; intros b Hord Hp Hne; simpl; [exact Hp|].
  apply IH; [by apply perform_keeps_blog_in_order | | exact Hne].
  by apply perform_leaves_others.
Qed.

End BlogProperties.

(** ** The further properties on concrete requests *)

(** X2 on a route that asks for a bearer token and an API key. *)
Lemma canActivate_calls_a_prefix_witness :
  fst (canActivate "k" Demo.refusing
         (Demo.route [AuthType.Bearer; AuthType.APIKey] ConditionGuard.And
            (Some "k")))
  `prefix_of` [AuthType.Bearer; AuthType.APIKey].
Proof.
  exact (proj1 (canActivate_calls_a_prefix "k" Demo.refusing
                  (Demo.route [AuthType.Bearer; AuthType.APIKey]
                     ConditionGuard.And (Some "k"))
                  [AuthType.Bearer; AuthType.APIKey] ConditionGuard.And eq_refl)).
Defined.

(** X3: the bearer token is refused, the API key is right. *)
Lemma or_mode_first_success_grants_witness :
  canActivate "k" Demo.refusing
    (Demo.route [AuthType.Bearer; AuthType.APIKey] ConditionGuard.Or (Some "k"))
  = ([AuthType.Bearer; AuthType.APIKey], inr true).
Proof.
  apply (or_mode_first_success_grants "k" Demo.refusing
           (Demo.route [AuthType.Bearer; AuthType.APIKey] ConditionGuard.Or
              (Some "k"))
           [AuthType.Bearer] AuthType.APIKey []);
    [reflexivity | repeat constructor | reflexivity].
Defined.

(** X4: the bearer token is refused twice over. *)
Lemma or_mode_all_fail_raises_last_witness :
  snd (canActivate "k" Demo.refusing
         (Demo.route [AuthType.Bearer; AuthType.Bearer] ConditionGuard.Or None))
  = inl (UnauthorizedException (Some "jwt expired")).
Proof.
  destruct (or_mode_all_fail_raises_last "k" Demo.refusing
              (Demo.route [AuthType.Bearer; AuthType.Bearer] ConditionGuard.Or None)
              [AuthType.Bearer; AuthType.Bearer] eq_refl)
    as (_ & Hlast & _); [repeat constructor|].
  apply (Hlast [AuthType.Bearer] AuthType.Bearer); reflexivity.
Defined.

(** X5: the API key is missing, the bearer token would be accepted. *)
Lemma or_mode_sync_throw_ends_run_witness :
  canActivate "k" Demo.accepting
    (Demo.route [AuthType.APIKey; AuthType.Bearer] ConditionGuard.Or None)
  = ([AuthType.APIKey], inl (UnauthorizedException None)).
Proof.
  apply (or_mode_sync_throw_ends_run "k" Demo.accepting
           (Demo.route [AuthType.APIKey; AuthType.Bearer] ConditionGuard.Or None)
           [] AuthType.APIKey [AuthType.Bearer]);
    [reflexivity | constructor | reflexivity].
Defined.

(** X6: the API key alone, under [Or]. *)
Lemma single_strategy_ignores_combinator_witness :
  canActivate "k" Demo.refusing
    (Demo.route [AuthType.APIKey] ConditionGuard.Or (Some "k"))
  = ([AuthType.APIKey], inr true).
Proof.
  exact (proj1 (single_strategy_ignores_combinator "k" Demo.refusing
                  (Demo.route [AuthType.APIKey] ConditionGuard.Or (Some "k"))
                  AuthType.APIKey ConditionGuard.Or ConditionGuard.And eq_refl)).
Defined.

(** X7: nothing declared, under [Or]. *)
Lemma empty_declaration_and_grants_or_rejects_witness :
  canActivate "k" Demo.accepting (Demo.route [] ConditionGuard.Or (Some "k"))
  = ([], inl (UnauthorizedException None)).
Proof.
  exact (empty_declaration_and_grants_or_rejects "k" Demo.accepting
           (Demo.route [] ConditionGuard.Or (Some "k")) ConditionGuard.Or eq_refl).
Defined.

(** X10 on a text that is no token. *)
Lemma refreshToken_rejects_with_unauthorized_only_witness :
  UnauthorizedException None = UnauthorizedException None
  \/ UnauthorizedException None
     = UnauthorizedException (Some "Refresh token has been revoked").
Proof.
  exact (refreshToken_rejects_with_unauthorized_only World memPrismaService
           (App.tokenService Sample.lib Sample.envConfig)
           "not-a-token" Sample.later (UnauthorizedException None) Sample.later
           eq_refl).
Defined.

(** X12 on the first pair issued to Alice. *)
Lemma generateTokens_returns_only_what_was_stored_witness :
  exists w1 w2 d w3 row,
    signAccessToken (App.tokenService Sample.lib Sample.envConfig) 1 Demo.at_login
    = (inr (accessToken Demo.first_pair), w1)
    /\ signRefreshToken (App.tokenService Sample.lib Sample.envConfig) 1 w1
       = (inr (refreshToken Demo.first_pair), w2)
    /\ verifyRefreshToken (App.tokenService Sample.lib Sample.envConfig)
         (refreshToken Demo.first_pair) w2 = (inr d, w3)
    /\ refreshToken_create memPrismaService
         {| rc_token := refreshToken Demo.first_pair; rc_userId := 1;
            rc_expiresAt := exp d * 1000 |} w3
       = (inr row, snd Sample.logged_in).
Proof.
  apply (generateTokens_returns_only_what_was_stored World memPrismaService
           (App.tokenService Sample.lib Sample.envConfig) 1 Demo.at_login
           Demo.first_pair (snd Sample.logged_in)).
  vm_compute. reflexivity.
Defined.


(** X14 on a second pair asked for in the second of the first. *)
Lemma generateTokens_rejected_writes_nothing_witness :
  refreshTokens (snd (App.generateTokens Sample.lib Sample.envConfig 1
                        (snd Sample.logged_in)))
  = refreshTokens (snd Sample.logged_in).
Proof.
  apply (generateTokens_rejected_writes_nothing Sample.lib Sample.envConfig 1
           (snd Sample.logged_in) P2002).
  vm_compute. reflexivity.
Defined.

(** X15 on Alice registering. *)
Lemma register_stores_hash_and_is_found_witness :
  find_user "alice@example.com" (users Sample.registered) = Some Demo.alice
  /\ user_password Demo.alice = bcrypt_hash Sample.lib "secret1" 0.
Proof.
  destruct (register_stores_hash_and_is_found Sample.lib Sample.alice
              Sample.empty Demo.alice Sample.registered)
    as (Huser & _ & _ & Hfound & _); [vm_compute; reflexivity|].
  split; [exact Hfound|]. rewrite Huser. reflexivity.
Defined.

(** X17 on Alice logging in. *)
Lemma login_issues_only_after_both_checks_witness :
  exists user d,
    find_user "alice@example.com" (users (advance 1000 Sample.registered))
    = Some user
    /\ bcrypt_compare Sample.lib "secret1" (user_password user) = true
    /\ jwt_verify Sample.lib (refreshToken Demo.first_pair)
         (REFRESH_TOKEN_SECRET Sample.envConfig) 3601000 = inr d.
Proof.
  destruct (login_issues_only_after_both_checks Sample.lib Sample.envConfig
              Sample.alice_login (advance 1000 Sample.registered)
              Demo.first_pair (snd Sample.logged_in))
    as (user & d & H1 & H2 & H3 & _); [vm_compute; reflexivity|].
  exists user, d. auto.
Defined.

(** X18 on the token Alice was issued, redeemed a second later. *)
Lemma login_token_is_redeemable_witness :
  fst (App.refreshToken Sample.lib Sample.envConfig
         (refreshToken Demo.first_pair) (advance 1000 (snd Sample.logged_in)))
  = inr Demo.second_pair.
Proof.
  rewrite (login_token_is_redeemable Sample.lib Sample.envConfig
             Sample.alice_login (advance 1000 Sample.registered)
             Demo.first_pair (snd Sample.logged_in) 1000
             {| userId := 1; exp := 608401; iat := 3601 |}
             Demo.second_pair
             (snd (App.generateTokens Sample.lib Sample.envConfig 1
                     (redeem (refreshToken Demo.first_pair)
                        (advance 1000 (snd Sample.logged_in))))));
    [reflexivity | vm_compute; reflexivity ..].
Defined.

(** X19 on a second pair asked for in the second of the first. *)
Lemma generateTokens_twice_at_one_instant_collides_witness :
  exists w2,
    App.generateTokens Sample.lib Sample.envConfig 1 (snd Sample.logged_in)
    = (inl P2002, w2)
    /\ refreshTokens w2 = refreshTokens (snd Sample.logged_in)
    /\ users w2 = users (snd Sample.logged_in).
Proof.
  apply (generateTokens_twice_at_one_instant_collides Sample.lib Sample.envConfig
           1 Demo.at_login Demo.first_pair (snd Sample.logged_in)).
  vm_compute. reflexivity.
Defined.

(** X21: Alice tries to change and to remove the post of Bob. *)
Lemma posts_update_remove_need_the_author_witness :
  Posts.update 2 1 Demo.edited Demo.blog
  = (inl (NotFoundException "Post not found"), Demo.blog)
  /\ Posts.remove 2 1 Demo.blog
     = (inl (NotFoundException "Post not found"), Demo.blog).
Proof.
  apply posts_update_remove_need_the_author.
  intros post Hpost. vm_compute in Hpost. injection Hpost as <-. discriminate.
Defined.

(** X22: Alice removes her post. *)
Lemma posts_remove_by_author_deletes_witness :
  exists b',
    Posts.remove 1 1 Demo.blog = (inr true, b')
    /\ blog_posts b' !! 2 = Some Demo.reply
    /\ Posts.findOne 1 b' = (inl (NotFoundException "Post not found"), b').
Proof.
  destruct (posts_remove_by_author_deletes 1 1 Demo.blog Demo.hello)
    as (b' & Hcall & _ & _ & Hothers & Hfind & _);
    [vm_compute; reflexivity | reflexivity |].
  exists b'. split; [exact Hcall|]. split; [|exact Hfind].
  rewrite Hothers by discriminate. vm_compute. reflexivity.
Defined.

(** X25: Alice edits her post. *)
Lemma posts_update_by_author_rewrites_witness :
  exists b',
    Posts.update 1 1 Demo.edited Demo.blog
    = (inr {| pa_post :=
                {| post_id := 1; post_title := "Hello again";
                   post_content := "Edited"; post_authorId := 1 |};
              pa_author := without_password Demo.alice |}, b')
    /\ blog_posts b' !! 2 = Some Demo.reply.
Proof.
  destruct (posts_update_by_author_rewrites 1 1 Demo.edited Demo.blog
              Demo.hello (without_password Demo.alice))
    as (b' & Hcall & _ & Hothers & _);
    [vm_compute; reflexivity | reflexivity | reflexivity |].
  exists b'. split; [exact Hcall|].
  rewrite Hothers by discriminate. vm_compute. reflexivity.
Defined.

(** X26 on the blog of Alice and Bob: Alice asks to rewrite and to remove
    the post of Bob, writes a post and removes her own. *)
Lemma posts_of_other_users_are_untouched_witness :
  blog_posts
    (perform_all 1
       [UpdatePost 2 Demo.edited; RemovePost 2; CreatePost Demo.edited;
        FindAllPosts; RemovePost 1]
       Demo.blog) !! 2
  = Some Demo.reply.
Proof.
  apply posts_of_other_users_are_untouched.
  - apply map_Forall_insert_2; [|apply map_Forall_insert_2; [|apply map_Forall_empty]].
    + split; [reflexivity|]. split; [done|]. by eexists.
    + split; [reflexivity|]. split; [done|]. by eexists.
  - vm_compute. reflexivity.
  - vm_compute. discriminate.
Defined.

(** ** The store calls of each method *)

Section CallProperties.
Variable lib : Libraries.
Variable envConfig : EnvConfig.

Lemma generateTokens_calls u w :
  calls (snd (App.generateTokens lib envConfig u w)) = calls w
  \/ exists data,
      rc_userId data = u
      /\ calls (snd (App.generateTokens lib envConfig u w))
         = calls w ++ [RefreshTokenCreate data].
Proof.
  unfold App.generateTokens, AuthService.generateTokens, bind. simpl.
  destruct (jwt_sign lib u _ _ (now w)) as [[n m]|a]; simpl; [by left|].
  destruct (jwt_sign lib u _ _ (now w)) as [[n m]|r]; simpl; [by left|].
  destruct (jwt_verify lib r _ (now w)) as [[n m]|d]; simpl; [by left|].
  right. eexists. split; [|destruct (refreshTokens w !! r); reflexivity].
  reflexivity.
Qed.

(** X27.  What each method asks of the store, in the order of the calls.
    [register] makes one call, the creation of the user with the hash as
    password.  [login] looks the user up and then, at most, creates one
    refresh-token row for the user found; it never deletes and never
    creates a user.  [refreshToken] makes its calls in the order lookup,
    deletion, creation of one row, each only after the one before went
    through, and all for the token presented; it never reads or writes
    the users. *)
Theorem store_calls_of_each_method w :
  (forall body,
      calls (snd (App.register lib body w))
      = calls w ++ [UserCreate
                      {| uc_email := reg_email body;
                         uc_password :=
                           bcrypt_hash lib (reg_password body) (salts w);
                         uc_name := reg_name body |}])
  /\ (forall body,
         calls (snd (App.login lib envConfig body w))
         = calls w ++ [UserFindUnique (login_email body)]
         \/ exists user data,
             find_user (login_email body) (users w) = Some user
             /\ rc_userId data = user_id user
             /\ calls (snd (App.login lib envConfig body w))
                = calls w ++ [UserFindUnique (login_email body);
                              RefreshTokenCreate data])
  /\ (forall token,
         let after := calls (snd (App.refreshToken lib envConfig token w)) in
         after = calls w
         \/ after = calls w ++ [RefreshTokenFindUniqueOrThrow token]
         \/ after = calls w ++ [RefreshTokenFindUniqueOrThrow token;
                                RefreshTokenDelete token]
         \/ exists data,
             after = calls w ++ [RefreshTokenFindUniqueOrThrow token;
                                 RefreshTokenDelete token;
                                 RefreshTokenCreate data]).
Proof.
  split; [|split].
  - intros body.
    destruct (find_user (reg_email body) (users w)) as [u|] eqn:Hf.
    + rewrite (register_taken_email lib body w u Hf). reflexivity.
    + rewrite (register_new_email lib body w Hf). reflexivity.
  - intros body. rewrite login_unfold. cbv zeta.
    destruct (find_user (login_email body) (users w)) as [user|] eqn:Hf;
      [|by left].
    destruct (bcrypt_compare lib (login_password body) (user_password user));
      [|by left].
    destruct (generateTokens_calls (user_id user)
                (record_call (UserFindUnique (login_email body)) w))
      as [H | (data & Hu & H)]; rewrite H; simpl.
    + by left.
    + right. exists user, data. split; [reflexivity|]. split; [exact Hu|].
      by rewrite <- app_assoc.
  - intros token. cbv zeta.
    destruct (jwt_verify lib token (REFRESH_TOKEN_SECRET envConfig) (now w))
      as [err|p] eqn:Hv.
    + rewrite (refreshToken_unverified lib envConfig token w err Hv). by left.
    + destruct (refreshTokens w !! token) as [row|] eqn:Hrow.
      * rewrite (refreshToken_redeems lib envConfig token w row p Hrow Hv).
        unfold try_catch.
        destruct (generateTokens_calls (userId p) (redeem token w))
          as [H | (data & _ & H)];
          destruct (App.generateTokens lib envConfig (userId p) (redeem token w))
            as [[e|tokens] w1]; simpl in H;
          try (destruct (isNotFoundPrismaError e)); simpl; rewrite H; simpl.
        all: try (right; right; left; by rewrite <- app_assoc).
        all: right; right; right; exists data; by rewrite <- !app_assoc.
      * rewrite (refreshToken_revoked lib envConfig token w p Hrow Hv).
        right. by left.
Qed.

End CallProperties.

(** ** Calls racing past the second of issue *)

(** X28.  Past the second of issue, where the replacement is signed
    under a text that is new, [N] calls of [refreshToken], two or more,
    that present the same stored token and are resumed in any order, each
    of them seven times or more, have all settled, and as if they had run
    one after another: one call has the result of [refreshToken] on the
    world they started in, which is the replacement pair; every other
    call has the result of a second [refreshToken] after that one, which
    is "Refresh token has been revoked".  Exactly one call is fulfilled,
    and the row of the token presented is gone. *)
Theorem concurrent_refresh_one_winner_on_new_text
    (lib : Libraries) (envConfig : EnvConfig) (N : nat) (schedule : list nat)
    (token : string) (w : World) (row : RefreshToken)
    (p : TokenPayload) (a r : string) (d : TokenPayload) :
  (2 <= N)%nat ->
  (forall i, (i < N)%nat -> (7 <= count_occ Nat.eq_dec schedule i)%nat) ->
  refreshTokens w !! token = Some row ->
  jwt_verify lib token (REFRESH_TOKEN_SECRET envConfig) (now w) = inr p ->
  jwt_sign lib (userId p) (ACCESS_TOKEN_SECRET envConfig)
    (ACCESS_TOKEN_EXPIRES_IN envConfig) (now w) = inr a ->
  jwt_sign lib (userId p) (REFRESH_TOKEN_SECRET envConfig)
    (REFRESH_TOKEN_EXPIRES_IN envConfig) (now w) = inr r ->
  jwt_verify lib r (REFRESH_TOKEN_SECRET envConfig) (now w) = inr d ->
  r <> token ->
  refreshTokens w !! r = None ->
  let first := App.refreshToken lib envConfig token w in
  let second := App.refreshToken lib envConfig token (snd first) in
  let final :=
    App.run lib envConfig schedule (replicate N (token, InFlight.AtVerify), w) in
  fst first = inr {| accessToken := a; refreshToken := r |}
  /\ fst second
     = inl (UnauthorizedException (Some "Refresh token has been revoked"))
  /\ (exists i,
         (i < N)%nat
         /\ fst final !! i = Some (token, InFlight.Settled (fst first))
         /\ forall j, (j < N)%nat -> j <> i ->
                      fst final !! j = Some (token, InFlight.Settled (fst second)))
  /\ length (List.filter InFlight.fulfilled (fst final)) = 1%nat
  /\ refreshTokens (snd final) !! token = None.
Proof.
  intros HN Hfair Hrow Hp Ha Hr Hd Hne Hfree first second final.
  assert (H1 : first = (inr {| accessToken := a; refreshToken := r |},
                        issue r (userId p) d (redeem token w))).
  { unfold first.
    rewrite (refreshToken_redeems lib envConfig token w row p Hrow Hp).
    unfold try_catch.
    rewrite (generateTokens_returns lib envConfig (userId p) (redeem token w)
               a r d Ha Hr Hd); [reflexivity|].
    simpl. rewrite lookup_delete_ne by done. exact Hfree. }
  assert (H2 : fst second
               = inl (UnauthorizedException
                        (Some "Refresh token has been revoked"))).
  { unfold second. rewrite H1. cbn [snd].
    rewrite (refreshToken_revoked lib envConfig token _ p); [reflexivity| |exact Hp].
    simpl. rewrite lookup_insert_ne by done. apply lookup_delete_eq. }
  assert (Hsettled : Forall (fun c => InFlight.is_settled c = true) (fst final)).
  { apply run_settles. intros i Hi. apply Hfair.
    by rewrite length_replicate in Hi. }
  destruct (race_single_winner lib envConfig N schedule token w row p a r d
              HN Hrow Hp Ha Hr Hd Hne Hfree Hsettled)
    as (Hwin & Hone & _ & Hgone).
  rewrite H2. rewrite H1. cbn [fst].
  split; [reflexivity|]. split; [reflexivity|].
  split; [exact Hwin|]. split; [exact Hone | exact Hgone].
Qed.

(** X28 on two devices that refresh, a second after her login, with the
    token Alice was issued. *)
Lemma concurrent_refresh_one_winner_on_new_text_witness :
  let final :=
    App.run Sample.lib Sample.envConfig Sample.in_turn
      (replicate 2 (Sample.issued, InFlight.AtVerify), Sample.later) in
  length (List.filter InFlight.fulfilled (fst final)) = 1%nat
  /\ refreshTokens (snd final) !! Sample.issued = None.
Proof.
  intros final.
  destruct (concurrent_refresh_one_winner_on_new_text
              Sample.lib Sample.envConfig
              2 Sample.in_turn Sample.issued Sample.later
              {| rt_token := Sample.issued; rt_userId := 1;
                 rt_expiresAt := 608401000; rt_createdAt := 3601000 |}
              {| userId := 1; exp := 608401; iat := 3601 |}
              "access-secret.1.3602.4502" "refresh-secret.1.3602.608402"
              {| userId := 1; exp := 608402; iat := 3602 |})
    as (_ & _ & _ & Hone & Hgone).
  - lia.
  - intros [|[|i]] Hi; [vm_compute; lia | vm_compute; lia | lia].
  - vm_compute. reflexivity.
  - vm_compute. reflexivity.
  - vm_compute. reflexivity.
  - vm_compute. reflexivity.
  - vm_compute. reflexivity.
  - discriminate.
  - vm_compute. reflexivity.
  - split; [exact Hone | exact Hgone].
Defined.
